(** * GPS animal tracker: serial line reader and fix extractor

    A shallow embedding of the three device programs
    ([print-gps-data/app.py], [decode-gps-data/app.py],
    [send-gps-data/app.py]) and of the storage function
    ([gps_data_trigger/__init__.py]).

    The serial port is a script of chunks, one per [readline()] call.
    Python [str] values are lists of code points, Python [float] values are
    the kernel's binary64 floats, exceptions are an explicit outcome. *)

From Stdlib Require Import ZArith NArith PArith List Bool String Ascii Lia.
From Stdlib.Strings Require Import Byte.
From Stdlib Require Import Floats.
Import ListNotations.

Set Implicit Arguments.
Local Set Warnings "-inexact-float,-register-all".

(** ** Text: bytes, code points, UTF-8 *)

Module Text.

Definition bytes := list byte.

(** A Python [str]: a sequence of Unicode code points. *)
Definition str := list N.

Definition code (b : byte) : N := Byte.to_N b.

(** An ASCII literal read as bytes, and as text. *)
Definition bytes_of (s : string) : bytes := list_byte_of_string s.
Definition text_of (s : string) : str := map code (list_byte_of_string s).

Fixpoint str_eqb (a b : str) : bool :=
  match a, b with
  | [], [] => true
  | x :: a', y :: b' => N.eqb x y && str_eqb a' b'
  | _, _ => false
  end.

(** The truth value of a [str]: the empty string is false. *)
Definition truthy (s : str) : bool :=
  match s with
  | [] => false
  | _ :: _ => true
  end.

Definition in_range (lo hi n : N) : bool := N.leb lo n && N.leb n hi.

(** A continuation byte, 10xxxxxx. *)
Definition is_cont (n : N) : bool := in_range 128 191 n.

Definition low6 (n : N) : N := N.land n 63.

(** [bytes.decode('utf-8')] with the default strict error handler:
    [None] stands for [UnicodeDecodeError].  Overlong forms, surrogates,
    code points above U+10FFFF and truncated sequences are all refused. *)
Fixpoint utf8_decode (bs : bytes) : option str :=
  match bs with
  | [] => Some []
  | b0 :: t0 =>
    let n0 := code b0 in
    if N.ltb n0 128 then option_map (cons n0) (utf8_decode t0)
    else if in_range 194 223 n0 then
      match t0 with
      | b1 :: t1 =>
        let n1 := code b1 in
        if is_cont n1
        then option_map (cons (N.lor (N.shiftl (N.land n0 31) 6) (low6 n1)))
                        (utf8_decode t1)
        else None
      | _ => None
      end
    else if in_range 224 239 n0 then
      match t0 with
      | b1 :: b2 :: t2 =>
        let n1 := code b1 in
        let n2 := code b2 in
        let lo := if N.eqb n0 224 then 160%N else 128%N in
        let hi := if N.eqb n0 237 then 159%N else 191%N in
        if in_range lo hi n1 && is_cont n2
        then option_map
               (cons (N.lor (N.shiftl (N.land n0 15) 12)
                            (N.lor (N.shiftl (low6 n1) 6) (low6 n2))))
               (utf8_decode t2)
        else None
      | _ => None
      end
    else if in_range 240 244 n0 then
      match t0 with
      | b1 :: b2 :: b3 :: t3 =>
        let n1 := code b1 in
        let n2 := code b2 in
        let n3 := code b3 in
        let lo := if N.eqb n0 240 then 144%N else 128%N in
        let hi := if N.eqb n0 244 then 143%N else 191%N in
        if in_range lo hi n1 && is_cont n2 && is_cont n3
        then option_map
               (cons (N.lor (N.shiftl (N.land n0 7) 18)
                            (N.lor (N.shiftl (low6 n1) 12)
                                   (N.lor (N.shiftl (low6 n2) 6) (low6 n3)))))
               (utf8_decode t3)
        else None
      | _ => None
      end
    else None
  end.

(** The characters [str.strip()] removes: those for which [str.isspace()]
    holds. *)
Definition is_space (c : N) : bool :=
  in_range 9 13 c || in_range 28 32 c || N.eqb c 133 || N.eqb c 160
  || N.eqb c 5760 || in_range 8192 8202 c || N.eqb c 8232 || N.eqb c 8233
  || N.eqb c 8239 || N.eqb c 8287 || N.eqb c 12288.

Fixpoint lstrip (s : str) : str :=
  match s with
  | c :: s' => if is_space c then lstrip s' else s
  | [] => []
  end.

Definition rstrip (s : str) : str := rev (lstrip (rev s)).

(** [s.strip()] *)
Definition strip (s : str) : str := rstrip (lstrip s).

(** No whitespace at either end. *)
Definition clean (s : str) : Prop :=
  (forall c, hd_error s = Some c -> is_space c = false) /\
  (forall c, hd_error (rev s) = Some c -> is_space c = false).

End Text.

Import Text.

(** ** Outcomes of a call *)

(** The exceptions that can leave the modelled functions. *)
Inductive exn : Set :=
| UnicodeDecodeError
| TypeError
| ValueError
| KeyError.

(** A call returns a value, raises, or never comes back because the
    blocking read has nothing more to deliver. *)
Inductive outcome (A : Type) : Type :=
| Returned (a : A)
| Raised (e : exn)
| Blocked.

Arguments Returned {A} a.
Arguments Raised {A} e.
Arguments Blocked {A}.

Definition bind {A B : Type} (m : outcome A) (k : A -> outcome B) : outcome B :=
  match m with
  | Returned a => k a
  | Raised e => Raised e
  | Blocked => Blocked
  end.

Notation "x <- m ;; k" := (bind m (fun x => k))
  (at level 61, m at next level, right associativity).

(** ** Numbers: [float(...)] and [pynmea2.dm_to_sd] *)

Module Num.

Definition is_digit (c : N) : bool := in_range 48 57 c.

Definition digit_val (c : N) : Z := Z.of_N c - 48.

(** The value of a string of decimal digits. *)
Definition digits_val (s : str) : Z :=
  fold_left (fun acc c => 10 * acc + digit_val c)%Z s 0%Z.

(** [float(d)] for a string of digits: the nearest binary64. *)
Definition float_of_int (d : str) : float :=
  SF2Prim (binary_normalize prec emax (digits_val d) 0 false).

(** [float(i + "." + f)] for digit strings [i] and [f]: the quotient of
    two integers, rounded once to the nearest binary64. *)
Definition float_of_decimal (i f : str) : float :=
  match digits_val (i ++ f) with
  | Zpos m =>
      SF2Prim (SFdiv prec emax (S754_finite false m 0)
                 (S754_finite false (Z.to_pos (10 ^ Z.of_nat (List.length f))) 0))
  | _ => 0%float
  end.

(** Everything before the first ['.'] and everything after it. *)
Fixpoint split_dot (s : str) : option (str * str) :=
  match s with
  | [] => None
  | c :: s' =>
      if N.eqb c 46 then Some ([], s')
      else option_map (fun p => (c :: fst p, snd p)) (split_dot s')
  end.

(** [$] also matches just before a final newline. *)
Definition chop_newline (s : str) : str :=
  match rev s with
  | 10%N :: r => rev r
  | _ => s
  end.

(** [re.match(r'^(\d+)(\d\d\.\d+)$', dm)]: degrees, the two minute digits,
    the minute fraction. *)
Definition dm_match (dm : str) : option (str * str * str) :=
  match split_dot (chop_newline dm) with
  | Some (ip, fp) =>
      if forallb is_digit ip && forallb is_digit fp
         && Nat.leb 3 (List.length ip) && Nat.leb 1 (List.length fp)
      then Some (firstn (List.length ip - 2) ip, skipn (List.length ip - 2) ip, fp)
      else None
  | None => None
  end.

(** Modelled from the spec: [pynmea2.dm_to_sd], a library function the
    programs call and the sources do not contain.  Degrees and decimal
    minutes, DDDMM.MMMM, to decimal degrees: degrees plus minutes over sixty.
    As in the library, an empty field or ["0"] gives 0.0 and any other text
    that is not DDDMM.MMMM raises.  Digits are the ASCII ones, as on the
    NMEA wire. *)
Definition dm_to_sd (dm : str) : outcome float :=
  if negb (truthy dm) || str_eqb dm (text_of "0") then Returned 0%float
  else
    match dm_match dm with
    | Some (d, mm, fr) =>
        Returned (float_of_int d + float_of_decimal mm fr / 60)%float
    | None => Raised ValueError
    end.

End Num.

Import Num.

(** ** The fix and the sentence *)

(** A Python object that is an [int] or a [str]: the two kinds of value the
    programs put in the satellites field. *)
Inductive pyobj : Type :=
| PyInt (z : Z)
| PyStr (s : str).

(** [class LatLon(NamedTuple)]: three fields, none with a default. *)
Record LatLon : Type := mkLatLon {
  lat : float;
  lon : float;
  num_satellites : pyobj
}.

(** The call [LatLon(lat, lon[, num_satellites])].  The class declares no
    default, so a call with two arguments does not build a tuple. *)
Definition LatLon_new (lat lon : float) (num_satellites : option pyobj)
  : outcome LatLon :=
  match num_satellites with
  | Some n => Returned (mkLatLon lat lon n)
  | None => Raised TypeError
  end.

(** The attributes of a parsed sentence that the programs read:
    [sentence_type] of every sentence, the others of a GGA sentence only.
    The coordinates and their hemisphere letters are text.  [num_sats] is
    whatever object the parser delivers; pynmea2 delivers the text of the
    field (its GGA field table names no converter for it), so for a sentence
    with eight satellites the string ['08'].  Every object of this type has
    a [sentence_type]: an object without one (pynmea2 builds such an object
    for a proprietary sentence of a manufacturer it does not know), on which
    the test of line 89 raises [AttributeError], is not represented, and no
    property below enumerates the exceptions of [get_next_location]. *)
Record sentence : Type := mkSentence {
  sentence_type : str;
  s_lat : str;
  lat_dir : str;
  s_lon : str;
  lon_dir : str;
  num_sats : pyobj
}.

(** [pynmea2.parse]: [None] stands for [pynmea2.nmea.ParseError]. *)
Definition parser : Type := str -> option sentence.

(** ** The serial port *)

(** What the driver has already buffered, and what will still arrive; each
    element is the result of one [readline()]. *)
Record serial : Type := mkSerial {
  in_waiting : list bytes;
  wire : list bytes
}.

Definition reset_input_buffer (c : serial) : serial :=
  mkSerial [] (wire c).

(** [serial_conn.readline()]: buffered chunks first; [None] when the read
    blocks for good. *)
Definition readline (c : serial) : option (bytes * serial) :=
  match in_waiting c with
  | b :: bs => Some (b, mkSerial bs (wire c))
  | [] =>
      match wire c with
      | b :: bs => Some (b, mkSerial [] bs)
      | [] => None
      end
  end.

(** ** [flush_serial] *)

(** The loop [while not line] of decode-gps-data and send-gps-data, on the
    chunks that arrive after the reset: what is left once it ends. *)
Fixpoint drain (w : list bytes) : option (list bytes) :=
  match w with
  | [] => None
  | raw :: rest =>
      match utf8_decode raw with
      | Some text => if truthy (strip text) then Some rest else drain rest
      | None => drain rest
      end
  end.

(** [flush_serial] of decode-gps-data and send-gps-data.  The call
    [serial_conn.flush()] waits for pending output and leaves the input as
    it is. *)
Definition flush_serial (serial_conn : serial) : outcome serial :=
  let c := reset_input_buffer serial_conn in
  match drain (wire c) with
  | Some rest => Returned (mkSerial [] rest)
  | None => Blocked
  end.

(** The loop [while read_line is None] of print-gps-data. *)
Fixpoint drain_print (w : list bytes) : option (list bytes) :=
  match w with
  | [] => None
  | raw :: rest =>
      match utf8_decode raw with
      | Some _ => Some rest
      | None => drain_print rest
      end
  end.

(** [flush_serial] of print-gps-data. *)
Definition flush_serial_print (serial_conn : serial) : outcome serial :=
  let c := reset_input_buffer serial_conn in
  match drain_print (wire c) with
  | Some rest => Returned (mkSerial [] rest)
  | None => Blocked
  end.

(** ** [get_next_location] *)

(** A result together with the lines given to the parser, in order. *)
Definition traced (A : Type) : Type := (outcome A * list str)%type.

Definition handed {A : Type} (line : str) (r : traced A) : traced A :=
  (fst r, line :: snd r).

(** The body of [if sentence.sentence_type == 'GGA']. *)
Definition fix_of (s : sentence) : outcome LatLon :=
  a <- dm_to_sd (s_lat s) ;;
  b <- dm_to_sd (s_lon s) ;;
  let a := if str_eqb (lat_dir s) (text_of "S") then (a * -1)%float else a in
  let b := if str_eqb (lon_dir s) (text_of "W") then (b * -1)%float else b in
  LatLon_new a b (Some (num_sats s)).

Definition is_GGA (s : sentence) : bool :=
  str_eqb (sentence_type s) (text_of "GGA").

(** The statement after the loop: [return LatLon(-999, -999)]. *)
Definition after_loop : outcome LatLon := LatLon_new (-999) (-999) None.

(** The loop [while retry < limit] with the loop [while sentence is None]
    inside it, and the statement after the loop. *)
Fixpoint scan (parse : parser) (limit retry : nat) (w : list bytes) {struct w}
  : traced LatLon :=
  if Nat.ltb retry limit then
    match w with
    | [] => (Blocked, [])
    | raw :: rest =>
        match utf8_decode raw with
        | None => (Raised UnicodeDecodeError, [])
        | Some line =>
            (fix parse_loop (line : str) (w : list bytes) {struct w}
               : traced LatLon :=
               handed line
                 match parse line with
                 | Some s =>
                     if is_GGA s then (fix_of s, [])
                     else scan parse limit (S retry) w
                 | None =>
                     match w with
                     | [] => (Blocked, [])
                     | raw' :: rest' =>
                         match utf8_decode raw' with
                         | None => (Raised UnicodeDecodeError, [])
                         | Some line' => parse_loop line' rest'
                         end
                     end
                 end) line rest
        end
    end
  else (after_loop, []).

(** The retry count of the source. *)
Definition retry_limit : nat := 100.

Definition get_next_location_traced (parse : parser) (serial_conn : serial)
  : traced LatLon :=
  match flush_serial serial_conn with
  | Returned c => scan parse retry_limit 0 (wire c)
  | Raised e => (Raised e, [])
  | Blocked => (Blocked, [])
  end.

(** [get_next_location] *)
Definition get_next_location (parse : parser) (serial_conn : serial)
  : outcome LatLon :=
  fst (get_next_location_traced parse serial_conn).

(** ** The polling loops and the telemetry message *)

(** The test [lat_lon.lat > -999 and lat_lon.lon > -999] of both [main]
    loops. *)
Definition is_valid (lat_lon : LatLon) : bool :=
  (-999 <? lat lat_lon)%float && (-999 <? lon lat_lon)%float.

(** The value [LatLon(-999, -999, 0)] that the specification calls the
    sentinel. *)
Definition sentinel : LatLon := mkLatLon (-999) (-999) (PyInt 0).

(** JSON values; an object keeps its keys in the order they were written. *)
Inductive json : Type :=
| JFloat (f : float)
| JInt (z : Z)
| JStr (s : str)
| JArr (items : list json)
| JObj (members : list (string * json)).

Definition json_of (o : pyobj) : json :=
  match o with
  | PyInt z => JInt z
  | PyStr s => JStr s
  end.

(** [message_json] of [send_message]: the object that [json.dumps] writes
    into the message body and that [json.loads] reads back in the storage
    function. *)
Definition message_json (lat_lon : LatLon) : json :=
  JObj [("gps"%string,
         JObj [("lat"%string, JFloat (lat lat_lon));
               ("lon"%string, JFloat (lon lat_lon));
               ("num_satellites"%string, json_of (num_satellites lat_lon))])].

(** What one turn of a polling loop does with the fix it got. *)
Inductive action : Type :=
| Printed (lat lon : float) (num_satellites : pyobj)
| Sent (body : json).

(** The [if] of decode-gps-data's [main]. *)
Definition report (lat_lon : LatLon) : list action :=
  if is_valid lat_lon
  then [Printed (lat lat_lon) (lon lat_lon) (num_satellites lat_lon)]
  else [].

(** The [if] of send-gps-data's [main]. *)
Definition forward (lat_lon : LatLon) : list action :=
  if is_valid lat_lon then [Sent (message_json lat_lon)] else [].

(** ** The storage function *)

(** [obj[key]] on a decoded JSON value. *)
Fixpoint lookup {V : Type} (key : string) (members : list (string * V))
  : option V :=
  match members with
  | [] => None
  | (k, v) :: rest => if String.eqb k key then Some v else lookup key rest
  end.

Definition getitem (obj : json) (key : string) : outcome json :=
  match obj with
  | JObj members =>
      match lookup key members with
      | Some v => Returned v
      | None => Raised KeyError
      end
  | _ => Raised TypeError
  end.

(** The event: its body, already read by [json.loads], and the metadata
    the hub attached to it. *)
Record EventHubEvent : Type := mkEvent {
  json_body : json;
  iothub_metadata : list (string * str)
}.

Definition metadata (event : EventHubEvent) (key : string) : outcome str :=
  match lookup key (iothub_metadata event) with
  | Some v => Returned v
  | None => Raised KeyError
  end.

(** [main] of gps_data_trigger from line 28 on: the record handed to the
    database, built from the body that [json.loads] returned.  Lines 18 and
    23 before it are in [main_from_bytes]. *)
Definition main (event : EventHubEvent) : outcome json :=
  animalid <- metadata event "connection-device-id" ;;
  gps1 <- getitem (json_body event) "gps" ;;
  sats <- getitem gps1 "num_satellites" ;;
  gps2 <- getitem (json_body event) "gps" ;;
  lon_v <- getitem gps2 "lon" ;;
  gps3 <- getitem (json_body event) "gps" ;;
  lat_v <- getitem gps3 "lat" ;;
  Returned
    (JObj [("animalid"%string, JStr animalid);
           ("num_satellites"%string, sats);
           ("location"%string,
            JObj [("type"%string, JStr (text_of "Point"));
                  ("coordinates"%string, JArr [lon_v; lat_v])])]).

(** ** print-gps-data *)

Definition printed {A : Type} (line : str) (r : traced A) : traced A :=
  (fst r, line :: snd r).

(** The loop [while True] of print-gps-data, with the lines it prints. *)
Fixpoint print_loop (w : list bytes) : traced unit :=
  match w with
  | [] => (Blocked, [])
  | raw :: rest =>
      match utf8_decode raw with
      | None => (Raised UnicodeDecodeError, [])
      | Some text =>
          let line := strip text in
          if truthy line then printed line (print_loop rest)
          else print_loop rest
      end
  end.

(** print-gps-data as a whole: drain, then print. *)
Definition print_gps_data (serial_conn : serial) : traced unit :=
  match flush_serial_print serial_conn with
  | Returned c => print_loop (wire c)
  | Raised e => (Raised e, [])
  | Blocked => (Blocked, [])
  end.

(** ** How a chunk fares in the drain loop and in the acquisition loop *)

(** A chunk the drain loop of decode-gps-data and send-gps-data reads
    past: it does not decode, or it decodes to white space only. *)
Definition unusable (raw : bytes) : bool :=
  match utf8_decode raw with
  | None => true
  | Some text => negb (truthy (strip text))
  end.

Definition undecodable (raw : bytes) : bool :=
  match utf8_decode raw with
  | None => true
  | Some _ => false
  end.

Inductive kind : Type :=
| Undecodable
| Malformed
| WrongType
| Target (s : sentence).

Definition classify (parse : parser) (raw : bytes) : kind :=
  match utf8_decode raw with
  | None => Undecodable
  | Some line =>
      match parse line with
      | None => Malformed
      | Some s => if is_GGA s then Target s else WrongType
      end
  end.

Definition is_malformed (parse : parser) (raw : bytes) : bool :=
  match classify parse raw with
  | Malformed => true
  | _ => false
  end.

Definition is_wrong_type (parse : parser) (raw : bytes) : bool :=
  match classify parse raw with
  | WrongType => true
  | _ => false
  end.

(** Chunks that decode and hold no GGA sentence. *)
Definition no_target (parse : parser) (raw : bytes) : bool :=
  is_malformed parse raw || is_wrong_type parse raw.

(** The well-formed sentences of another type among the chunks. *)
Definition wrong_types (parse : parser) (w : list bytes) : nat :=
  List.length (filter (is_wrong_type parse) w).

(** ** A reference parser for talker sentences

    The acquisition loop is stated for every parser.  The scripted scenarios
    need one that runs: this is the NMEA 0183 wire grammar as pynmea2 reads
    it for talker sentences ([$], two letters of talker, three of sentence
    type, comma separated fields, an optional [*HH] checksum that must
    match the exclusive-or of the characters between [$] and [*]).
    Proprietary and query sentences are not covered and are refused. *)

Module Reference.

Definition is_word (c : N) : bool :=
  in_range 48 57 c || in_range 65 90 c || in_range 97 122 c || N.eqb c 95.

Definition upper (c : N) : N := if in_range 97 122 c then (c - 32)%N else c.

Definition hex_val (c : N) : option N :=
  if in_range 48 57 c then Some (c - 48)%N
  else if in_range 65 70 c then Some (c - 55)%N
  else if in_range 97 102 c then Some (c - 87)%N
  else None.

(** [reduce(xor, map(ord, nmea_str))] *)
Definition checksum (s : str) : N := fold_left N.lxor s 0%N.

(** The text before the first [*], and what follows that [*] if any. *)
Fixpoint split_star (s : str) : str * option str :=
  match s with
  | [] => ([], None)
  | c :: s' =>
      if N.eqb c 42 then ([], Some s')
      else let p := split_star s' in (c :: fst p, snd p)
  end.

(** [data_str.split(',')] *)
Fixpoint split_comma (s : str) : list str :=
  match s with
  | [] => [[]]
  | c :: s' =>
      if N.eqb c 44 then [] :: split_comma s'
      else
        match split_comma s' with
        | f :: fs => (c :: f) :: fs
        | [] => [[c]]
        end
  end.

(** Field [i] of the data, [''] when the sentence is too short. *)
Definition field (data : list str) (i : nat) : str := nth i data [].

(** The sentence types this parser knows. *)
Definition known : list string := ["GGA"; "RMC"; "GSA"; "GSV"; "GLL"; "VTG"]%string.

Definition is_known (t : str) : bool :=
  existsb (fun k => str_eqb t (text_of k)) known.

(** The checksum group, when present, is two hexadecimal digits followed
    by nothing but white space. *)
Definition checksum_ok (body : str) (tail : option str) : bool :=
  match tail with
  | None => true
  | Some (h1 :: h2 :: rest) =>
      match hex_val h1, hex_val h2 with
      | Some a, Some b =>
          forallb is_space rest && N.eqb (16 * a + b) (checksum body)
      | _, _ => false
      end
  | Some _ => false
  end.

(** Modelled from the spec: [pynmea2.parse], the parser the programs
    call and the sources do not contain, for talker sentences.  A line that
    does not match the grammar, whose checksum is wrong or whose type is
    unknown is refused ([None], for [ParseError]). *)
Definition parse (line : str) : option sentence :=
  let s := lstrip line in
  let s := match s with 36%N :: s' => s' | _ => s end in
  let (body, tail) := split_star s in
  match body with
  | t1 :: t2 :: c1 :: c2 :: c3 :: 44%N :: data_str =>
      if forallb is_word [t1; t2; c1; c2; c3]
         && negb (N.eqb (upper t1) 80)
         && checksum_ok body tail
         && is_known (map upper [c1; c2; c3])
      then
        let data := split_comma data_str in
        let t := map upper [c1; c2; c3] in
        if str_eqb t (text_of "GGA")
        then Some (mkSentence t (field data 1) (field data 2) (field data 3)
                     (field data 4) (PyStr (field data 6)))
        else Some (mkSentence t [] [] [] [] (PyStr []))
      else None
  | _ => None
  end.

End Reference.

(** ** Statement vocabulary *)

(** The GGA sentence the acquisition loop ends on: after the drain, only
    chunks without a GGA sentence come before it, fewer than the budget of
    them well-formed. *)
Definition reaches (parse : parser) (serial_conn : serial) (s : sentence) : Prop :=
  exists c pre raw post,
    flush_serial serial_conn = Returned c /\
    wire c = pre ++ raw :: post /\
    forallb (no_target parse) pre = true /\
    wrong_types parse pre < retry_limit /\
    classify parse raw = Target s.

(** Zero, a positive number or plus infinity. *)
Definition sf_nonneg (x : spec_float) : bool :=
  match x with
  | S754_zero false | S754_finite false _ _ | S754_infinity false => true
  | _ => false
  end.

(** A magnitude with its hemisphere applied. *)
Definition signed (negative : bool) (x : float) : float :=
  if negative then (- x)%float else x.

(** [x] lies in [[-bound, bound]]. *)
Definition within (bound x : float) : Prop :=
  (- bound <=? x)%float = true /\ (x <=? bound)%float = true.

Definition southern (s : sentence) : bool := str_eqb (lat_dir s) (text_of "S").
Definition western (s : sentence) : bool := str_eqb (lon_dir s) (text_of "W").

(** A non-empty string of digits. *)
Definition is_digits (s : str) : bool := truthy s && forallb is_digit s.

(** Degrees, two minute digits and a minute fraction. *)
Definition is_dm (d mm fr : str) : bool :=
  is_digits d && Nat.eqb (List.length mm) 2 && forallb is_digit mm
  && is_digits fr.

(** The text DDDMM.MMMM. *)
Definition dm_text (d mm fr : str) : str := d ++ mm ++ 46%N :: fr.

(** ** Scripted streams *)

Module Script.

Definition crlf : bytes := [x0d; x0a].

Definition gga_text : string :=
  "$GPGGA,123519,4807.038,N,01131.000,E,1,08,0.9,545.4,M,46.9,M,,*47".

Definition rmc_text : string :=
  "$GPRMC,123519,A,4807.038,N,01131.000,E,022.4,084.4,230394,003.1,W*6A".

(** The first line of the end-to-end scenario, as the text gives it. *)
Definition rmc_elided : string := "$GPRMC,...*6A".

(** Degrees and minutes beyond the globe, in a sentence whose checksum
    is right. *)
Definition gga_far_text : string :=
  "$GPGGA,123519,8999.999,N,18099.000,E,1,08,0.9,545.4,M,46.9,M,,*44".

Definition gga_south_west_text : string :=
  "$GPGGA,123519,3746.2900,S,12225.1000,W,1,05,1.2,12.0,M,-25.0,M,,*55".

Definition line (s : string) : bytes := bytes_of s ++ crlf.

(** A line cut in the middle of a multi-byte character. *)
Definition torn : bytes := [xe2; x82; x0a].

Definition port (w : list bytes) : serial := mkSerial [] w.

(** The end-to-end scenario. *)
Definition scenario : serial := port [bytes_of rmc_elided; bytes_of gga_text].

(** One line for the drain, then a hundred sentences of another type. *)
Definition hundred_rmc : serial := port (repeat (line rmc_text) 101).

(** A torn line after the drain. *)
Definition torn_after_drain : serial := port [line rmc_text; torn; line gga_text].

(** A torn line met while the drain is still looking for a line. *)
Definition torn_in_drain : serial := port [torn; line rmc_text; line gga_text].

Definition far : serial := port [line rmc_text; line gga_far_text].

Definition south_west : serial := port [line rmc_text; line gga_south_west_text].

Definition two_lines : serial := port [line rmc_text; line gga_text].

(** Stale chunks in the driver, noise and a blank line on the wire. *)
Definition stale : serial :=
  mkSerial [line gga_far_text] [torn; crlf; line rmc_text; line gga_text].

(** Malformed lines between sentences of another type. *)
Definition interleaved : list bytes :=
  [bytes_of rmc_elided; line rmc_text; crlf; line rmc_text; bytes_of rmc_elided].

End Script.

(** ** The connection after a fix, and the polling loops *)

Definition outcome_map {A B : Type} (f : A -> B) (m : outcome A) : outcome B :=
  x <- m ;; Returned (f x).

(** The acquisition loop again, this time with the chunks it leaves on the
    wire when it returns. *)
Fixpoint acquire (parse : parser) (limit retry : nat) (w : list bytes) {struct w}
  : outcome (LatLon * list bytes) :=
  if Nat.ltb retry limit then
    match w with
    | [] => Blocked
    | raw :: rest =>
        match utf8_decode raw with
        | None => Raised UnicodeDecodeError
        | Some line =>
            (fix parse_loop (line : str) (w : list bytes) {struct w}
               : outcome (LatLon * list bytes) :=
               match parse line with
               | Some s =>
                   if is_GGA s then lat_lon <- fix_of s ;; Returned (lat_lon, w)
                   else acquire parse limit (S retry) w
               | None =>
                   match w with
                   | [] => Blocked
                   | raw' :: rest' =>
                       match utf8_decode raw' with
                       | None => Raised UnicodeDecodeError
                       | Some line' => parse_loop line' rest'
                       end
                   end
               end) line rest
        end
    end
  else lat_lon <- after_loop ;; Returned (lat_lon, w).

(** [get_next_location] with the state it leaves the connection in. *)
Definition get_next_location_st (parse : parser) (serial_conn : serial)
  : outcome (LatLon * serial) :=
  c <- flush_serial serial_conn ;;
  r <- acquire parse retry_limit 0 (wire c) ;;
  Returned (fst r, mkSerial [] (snd r)).

(** How a polling loop stops on a script: an exception leaves it, or the
    read it is in never returns. *)
Inductive ending : Type :=
| Crashed (e : exn)
| Waiting.

(** The loop [while True] of both [main] functions: [act] is what the
    [if] does with the fix.  The loop itself has no bound; [fuel] bounds
    the turns taken on a script, [None] when it runs out.  The pause between
    turns is left out. *)
Fixpoint poll_loop (act : LatLon -> list action) (parse : parser) (fuel : nat)
  (c : serial) : option (ending * list action) :=
  match fuel with
  | O => None
  | S fuel' =>
      match get_next_location_st parse c with
      | Returned (lat_lon, c') =>
          option_map (fun r => (fst r, act lat_lon ++ snd r))
            (poll_loop act parse fuel' c')
      | Raised e => Some (Crashed e, [])
      | Blocked => Some (Waiting, [])
      end
  end.

(** [main]: one [flush_serial], then the loop. *)
Definition main_loop (act : LatLon -> list action) (parse : parser) (fuel : nat)
  (serial_conn : serial) : option (ending * list action) :=
  match flush_serial serial_conn with
  | Returned c => poll_loop act parse fuel c
  | Raised e => Some (Crashed e, [])
  | Blocked => Some (Waiting, [])
  end.

(** [main] of decode-gps-data. *)
Definition main_decode : parser -> nat -> serial -> option (ending * list action) :=
  main_loop report.

(** [main] of send-gps-data, once the hub is connected. *)
Definition main_send : parser -> nat -> serial -> option (ending * list action) :=
  main_loop forward.

(** [main] of gps_data_trigger from the raw event: the body is decoded
    (line 18) and read by [json.loads] (line 23) before the record is built.
    [loads] stands for [json.loads]; what it raises leaves [main]. *)
Definition main_from_bytes (loads : str -> outcome json) (body : bytes)
  (metadata : list (string * str)) : outcome json :=
  match utf8_decode body with
  | None => Raised UnicodeDecodeError
  | Some text =>
      json_body <- loads text ;;
      main (mkEvent json_body metadata)
  end.

(** The text of the chunks that decode, in order. *)
Definition decoded (w : list bytes) : list str :=
  flat_map (fun raw => match utf8_decode raw with
                       | Some line => [line]
                       | None => []
                       end) w.

(** Bytes below 128 only. *)
Definition is_ascii (raw : bytes) : bool :=
  forallb (fun b => N.ltb (code b) 128) raw.

(** A chunk that holds a GGA sentence from which a fix passing the
    validity test is made, and that the drain would stop on. *)
Definition good_fix (parse : parser) (raw : bytes) : bool :=
  negb (unusable raw) &&
  match classify parse raw with
  | Target s =>
      match fix_of s with
      | Returned lat_lon => is_valid lat_lon
      | _ => false
      end
  | _ => false
  end.

(** More scripted streams. *)
Module Script2.

Import Script.

(** A GGA sentence from a receiver that has no fix yet: empty coordinates. *)
Definition gga_no_fix_text : string := "$GPGGA,123519,,,,,0,00,,,M,,M,,*6B".

(** A GGA sentence whose latitude is not a number. *)
Definition gga_bad_lat_text : string :=
  "$GPGGA,123519,north,N,01131.000,E,1,08,0.9,545.4,M,46.9,M,,*36".

(** A GGA sentence 999 degrees south and west: it matches the wire
    grammar, checksum included. *)
Definition gga_999_text : string :=
  "$GPGGA,123519,99900.000,S,99900.000,W,1,08,0.9,545.4,M,46.9,M,,*7A".

Definition beyond_999 : serial := port [line rmc_text; line gga_999_text].

Definition no_fix : serial := port [line rmc_text; line gga_no_fix_text].

Definition bad_lat : serial := port [line rmc_text; line gga_bad_lat_text].

(** Five GGA lines in a row. *)
Definition five_gga : serial := port (repeat (line gga_text) 5).

End Script2.

(** * Properties *)

Unset Implicit Arguments.

(** ** Binary64 facts *)

Section FloatFacts.

Ltac cmp_cases :=
  repeat match goal with
  | |- context [PosDef.Pos.compare_cont Eq ?a ?b] =>
      change (PosDef.Pos.compare_cont Eq a b) with (Pos.compare a b)
  | H : context [PosDef.Pos.compare_cont Eq ?a ?b] |- _ =>
      change (PosDef.Pos.compare_cont Eq a b) with (Pos.compare a b) in H
  | |- context [Z.compare ?a ?b] => destruct (Z.compare_spec a b)
  | H : context [Z.compare ?a ?b] |- _ => destruct (Z.compare_spec a b)
  | |- context [Pos.compare ?a ?b] => destruct (Pos.compare_spec a b)
  | H : context [Pos.compare ?a ?b] |- _ => destruct (Pos.compare_spec a b)
  end.

Ltac by_cases x y z :=
  destruct x as [[]|[]| |[] ? ?], y as [[]|[]| |[] ? ?], z as [[]|[]| |[] ? ?];
  cbn; try reflexivity; try discriminate; intros;
  cmp_cases; cbn in *; try reflexivity; try discriminate; try lia.

Lemma SFcompare_opp x y : SFcompare (SFopp x) (SFopp y) = SFcompare y x.
Proof.
  destruct x as [[]|[]| |[] m1 e1], y as [[]|[]| |[] m2 e2]; cbn;
    try reflexivity; f_equal; cmp_cases; cbn; try reflexivity; try lia.
Qed.

Lemma SFleb_opp x y : SFleb (SFopp x) (SFopp y) = SFleb y x.
Proof. unfold SFleb. rewrite SFcompare_opp. reflexivity. Qed.

Lemma SFleb_trans x y z :
  SFleb x y = true -> SFleb y z = true -> SFleb x z = true.
Proof. unfold SFleb. by_cases x y z. Qed.

Lemma SFltb_leb_trans x y z :
  SFltb x y = true -> SFleb y z = true -> SFltb x z = true.
Proof. unfold SFleb, SFltb. by_cases x y z. Qed.

Lemma leb_trans (x y z : float) :
  (x <=? y)%float = true -> (y <=? z)%float = true -> (x <=? z)%float = true.
Proof. rewrite !leb_spec. apply SFleb_trans. Qed.

Lemma ltb_leb_trans (x y z : float) :
  (x <? y)%float = true -> (y <=? z)%float = true -> (x <? z)%float = true.
Proof. rewrite !leb_spec, !ltb_spec. apply SFltb_leb_trans. Qed.

Lemma leb_opp (x y : float) : (- x <=? - y)%float = (y <=? x)%float.
Proof. rewrite !leb_spec, !opp_spec. apply SFleb_opp. Qed.

(** Shifting right undoes shifting left, with nothing lost. *)
Lemma iter_shr_zeros (n : nat) (m : positive) :
  Nat.iter n shr_1
    {| shr_m := Zpos (Nat.iter n xO m); shr_r := false; shr_s := false |}
  = {| shr_m := Zpos m; shr_r := false; shr_s := false |}.
Proof.
  induction n as [|n IH]; [reflexivity|].
  rewrite Nat.iter_succ_r. cbn [Nat.iter shr_1 orb]. exact IH.
Qed.

Lemma digits2_shift (n : nat) (m : positive) :
  Zpos (digits2_pos (Nat.iter n xO m)) = (Zpos (digits2_pos m) + Z.of_nat n)%Z.
Proof.
  induction n as [|n IH]; [cbn; lia|].
  change (Nat.iter (S n) xO m) with (xO (Nat.iter n xO m)).
  cbn [digits2_pos]. rewrite Pos2Z.inj_succ, IH. lia.
Qed.

Lemma iter_pos_nat {A : Type} (f : A -> A) p x :
  iter_pos f p x = Nat.iter (Pos.to_nat p) f x.
Proof.
  revert x. induction p as [p IH|p IH|]; intro x; cbn [iter_pos].
  - rewrite !IH, Pos2Nat.inj_xI, Nat.iter_succ_r.
    replace (2 * Pos.to_nat p)%nat with (Pos.to_nat p + Pos.to_nat p)%nat by lia.
    rewrite Nat.iter_add. reflexivity.
  - rewrite !IH, Pos2Nat.inj_xO.
    replace (2 * Pos.to_nat p)%nat with (Pos.to_nat p + Pos.to_nat p)%nat by lia.
    rewrite Nat.iter_add. reflexivity.
  - reflexivity.
Qed.

(** The product with -1 is exact: the mantissa and the exponent of a
    binary64 come back unchanged, the sign flipped. *)
Lemma SFmul_neg_one x :
  valid_binary x = true ->
  SF64mul x (S754_finite true 4503599627370496 (-52)) = SFopp x.
Proof.
  destruct x as [s|s| |s m e]; try reflexivity.
  intro V. cbn [SpecFloat.valid_binary] in V.
  unfold bounded, canonical_mantissa in V.
  apply andb_prop in V. destruct V as [C B]. apply Z.eqb_eq in C.
  unfold SF64mul, SFmul, binary_round_aux.
  assert (M : (m * 4503599627370496)%positive = Nat.iter 52 xO m).
  { rewrite Pos.mul_comm. reflexivity. }
  rewrite M.
  assert (D : Zdigits2 (Zpos (Nat.iter 52 xO m)) = (Zpos (digits2_pos m) + 52)%Z).
  { cbn [Zdigits2]. rewrite digits2_shift. reflexivity. }
  unfold shr_fexp at 1. rewrite D.
  replace (Z.pos (digits2_pos m) + 52 + (e + -52))%Z
    with (Z.pos (digits2_pos m) + e)%Z by lia.
  rewrite C. replace (e - (e + -52))%Z with 52%Z by lia.
  cbn [shr shr_record_of_loc]. rewrite iter_pos_nat.
  change (Pos.to_nat 52) with 52%nat. rewrite iter_shr_zeros.
  cbn [shr_m loc_of_shr_record round_nearest_even].
  unfold shr_fexp. cbn [Zdigits2].
  replace (e + -52 + 52)%Z with e by lia. rewrite C, Z.sub_diag.
  cbn [shr shr_record_of_loc shr_m]. rewrite B. cbn [SFopp xorb].
  destruct s; reflexivity.
Qed.

(** [x * -1] is [-x], for every float. *)
Lemma mul_neg_one (x : float) : (x * -1)%float = (- x)%float.
Proof.
  apply Prim2SF_inj. rewrite mul_spec, opp_spec.
  change (Prim2SF (-1)) with (S754_finite true 4503599627370496 (-52)).
  apply SFmul_neg_one, Prim2SF_valid.
Qed.

Lemma SFleb_opp_nonneg a b :
  SFleb (S754_zero false) a = true -> SFleb (S754_zero false) b = true ->
  SFleb (SFopp a) b = true.
Proof.
  unfold SFleb.
  destruct a as [[]|[]| |[] ? ?], b as [[]|[]| |[] ? ?]; cbn;
    try reflexivity; try discriminate.
Qed.

Lemma leb_opp_nonneg (a b : float) :
  (0 <=? a)%float = true -> (0 <=? b)%float = true -> (- a <=? b)%float = true.
Proof. rewrite !leb_spec, opp_spec. apply SFleb_opp_nonneg. Qed.

(** A magnitude between 0 and a bound stays within the bound on both
    sides, negated or not. *)
Lemma within_bound (a bound : float) :
  (0 <=? a)%float = true -> (a <=? bound)%float = true ->
  ((- bound <=? a)%float = true /\ (a <=? bound)%float = true) /\
  ((- bound <=? - a)%float = true /\ (- a <=? bound)%float = true).
Proof.
  intros H0 H1.
  assert (Hb : (0 <=? bound)%float = true) by exact (leb_trans _ _ _ H0 H1).
  repeat split.
  - apply leb_opp_nonneg; assumption.
  - exact H1.
  - rewrite leb_opp. exact H1.
  - apply leb_opp_nonneg; assumption.
Qed.

(** Rounding a number that is not negative gives zero, a positive number
    or plus infinity; the operations of the conversion keep that. *)
Lemma shr_1_nonneg mrs : (0 <= shr_m mrs)%Z -> (0 <= shr_m (shr_1 mrs))%Z.
Proof.
  destruct mrs as [m r s]. cbn [shr_m]. intro H.
  destruct m as [|[p|p|]|p]; cbn; lia.
Qed.

Lemma iter_shr_1_nonneg n mrs :
  (0 <= shr_m mrs)%Z -> (0 <= shr_m (Nat.iter n shr_1 mrs))%Z.
Proof.
  intro H. induction n as [|n IH]; [exact H|].
  cbn [Nat.iter nat_rect]. apply shr_1_nonneg. exact IH.
Qed.

Lemma shr_fexp_nonneg m e l :
  (0 <= m)%Z -> (0 <= shr_m (fst (shr_fexp prec emax m e l)))%Z.
Proof.
  intro H. unfold shr_fexp, shr.
  assert (R : (0 <= shr_m (shr_record_of_loc m l))%Z).
  { destruct l as [|[]]; exact H. }
  destruct (fexp prec emax (Zdigits2 m + e) - e)%Z; cbn [fst]; try exact R.
  rewrite iter_pos_nat. apply iter_shr_1_nonneg. exact R.
Qed.

Lemma round_nearest_even_nonneg m l :
  (0 <= m)%Z -> (0 <= round_nearest_even m l)%Z.
Proof.
  intro H. unfold round_nearest_even.
  destruct l as [|[]]; try destruct (Z.even m); lia.
Qed.

Lemma binary_round_aux_nonneg m e l :
  (0 <= m)%Z -> sf_nonneg (binary_round_aux prec emax false m e l) = true.
Proof.
  intro H. unfold binary_round_aux.
  pose proof (shr_fexp_nonneg m e l H) as H1.
  destruct (shr_fexp prec emax m e l) as [mrs' e']. cbn [fst] in H1.
  pose proof (shr_fexp_nonneg _ e' loc_Exact
                (round_nearest_even_nonneg _ (loc_of_shr_record mrs') H1)) as H2.
  destruct (shr_fexp prec emax _ e' loc_Exact) as [mrs'' e'']. cbn [fst] in H2.
  destruct (shr_m mrs'') as [|p|p]; try reflexivity; [|lia].
  destruct (e'' <=? emax - prec)%Z; reflexivity.
Qed.

Lemma binary_normalize_nonneg z e :
  (0 <= z)%Z -> sf_nonneg (binary_normalize prec emax z e false) = true.
Proof.
  intro H. destruct z as [|p|p]; [reflexivity| |lia].
  cbn [binary_normalize]. unfold binary_round.
  destruct (shl_align p e _) as [mz ez]. apply binary_round_aux_nonneg. lia.
Qed.

Lemma SFadd_nonneg x y :
  sf_nonneg x = true -> sf_nonneg y = true -> sf_nonneg (SF64add x y) = true.
Proof.
  destruct x as [[]|[]| |[] mx ex], y as [[]|[]| |[] my ey];
    try discriminate; try reflexivity. intros _ _.
  unfold SF64add, SFadd. apply binary_normalize_nonneg. cbn [cond_Zopp]. lia.
Qed.

Lemma SFdiv_nonneg x my ey :
  sf_nonneg x = true ->
  sf_nonneg (SFdiv prec emax x (S754_finite false my ey)) = true.
Proof.
  destruct x as [[]|[]| |[] mx ex]; try discriminate; try reflexivity. intros _.
  unfold SFdiv, SFdiv_core_binary.
  set (m' := match _ with Z0 => _ | Zpos _ => _ | Zneg _ => _ end).
  assert (M : (0 <= m')%Z).
  { subst m'. destruct (_ - _ - _)%Z; try lia. apply Z.shiftl_nonneg. lia. }
  pose proof (Z_div_mod m' (Zpos my) eq_refl) as D.
  destruct (Z.div_eucl m' (Z.pos my)) as [q r].
  apply binary_round_aux_nonneg. nia.
Qed.

Lemma SF2Prim_nonneg x :
  sf_nonneg x = true -> sf_nonneg (Prim2SF (SF2Prim x)) = true.
Proof.
  destruct x as [[]|[]| |[] m e]; try discriminate; try reflexivity. intros _.
  cbn [SF2Prim]. rewrite Z_ldexp_spec, of_uint63_spec.
  pose proof (Uint63.to_Z_bounded (Uint63.of_Z (Zpos m))) as B.
  pose proof (binary_normalize_nonneg (Uint63.to_Z (Uint63.of_Z (Zpos m))) 0
                (proj1 B)) as N.
  destruct (binary_normalize prec emax _ 0 false) as [[]|[]| |[] m1 e1];
    try discriminate; try reflexivity.
  cbn [SFldexp]. unfold binary_round.
  destruct (shl_align m1 _ _) as [mz ez]. apply binary_round_aux_nonneg. lia.
Qed.

Lemma leb_zero_nonneg (a : float) :
  sf_nonneg (Prim2SF a) = true -> (0 <=? a)%float = true.
Proof.
  rewrite leb_spec. change (Prim2SF 0) with (S754_zero false).
  destruct (Prim2SF a) as [[]|[]| |[] m e]; try discriminate; reflexivity.
Qed.

End FloatFacts.

(** ** Stripping *)

Section Strip.

Lemma lstrip_head (s : str) (c : N) :
  hd_error (lstrip s) = Some c -> is_space c = false.
Proof.
  induction s as [|x s IH]; cbn [lstrip]; [discriminate|].
  destruct (is_space x) eqn:E; [exact IH|].
  cbn. intro H. injection H as <-. exact E.
Qed.

Lemma lstrip_suffix (s : str) : exists v, s = v ++ lstrip s.
Proof.
  induction s as [|x s [v IH]]; cbn [lstrip]; [exists []; reflexivity|].
  destruct (is_space x).
  - exists (x :: v). cbn. f_equal. exact IH.
  - exists []. reflexivity.
Qed.

Lemma rstrip_prefix (s : str) : exists v, s = rstrip s ++ v.
Proof.
  unfold rstrip. destruct (lstrip_suffix (rev s)) as [v E].
  exists (rev v). rewrite <- rev_app_distr, <- E, rev_involutive. reflexivity.
Qed.

(** What [strip] returns has no white space at either end. *)
Lemma strip_clean (s : str) : clean (strip s).
Proof.
  unfold clean, strip. split; intros c H.
  - destruct (rstrip_prefix (lstrip s)) as [v E].
    apply (lstrip_head s c). rewrite E.
    destruct (rstrip (lstrip s)); [discriminate|exact H].
  - unfold rstrip in H. rewrite rev_involutive in H.
    exact (lstrip_head _ _ H).
Qed.

End Strip.

(** ** The drain loop *)

Section Drain.

Lemma drain_skips (junk rest : list bytes) :
  forallb unusable junk = true -> drain (junk ++ rest) = drain rest.
Proof.
  induction junk as [|raw junk IH]; cbn [forallb app drain]; [reflexivity|].
  intro H. apply andb_prop in H. destruct H as [U H]. unfold unusable in U.
  destruct (utf8_decode raw) as [text|]; [|exact (IH H)].
  destruct (truthy (strip text)); [discriminate|exact (IH H)].
Qed.

Lemma drain_stops (raw : bytes) (rest : list bytes) :
  unusable raw = false -> drain (raw :: rest) = Some rest.
Proof.
  unfold unusable. cbn [drain].
  destruct (utf8_decode raw) as [text|]; [|discriminate].
  destruct (truthy (strip text)); [reflexivity|discriminate].
Qed.

Lemma drain_starved (junk : list bytes) :
  forallb unusable junk = true -> drain junk = None.
Proof.
  intro H. rewrite <- (app_nil_r junk). rewrite (drain_skips _ _ H). reflexivity.
Qed.

(** What the drain leaves is what followed the first usable chunk. *)
Lemma drain_inv (w rest : list bytes) :
  drain w = Some rest ->
  exists junk raw,
    w = junk ++ raw :: rest /\ forallb unusable junk = true /\
    unusable raw = false.
Proof.
  induction w as [|x w IH]; cbn [drain]; [discriminate|].
  destruct (unusable x) eqn:U.
  - intro H.
    assert (D : drain w = Some rest).
    { unfold unusable in U. destruct (utf8_decode x) as [text|]; [|exact H].
      destruct (truthy (strip text)); [discriminate|exact H]. }
    destruct (IH D) as (junk & raw & -> & J & R).
    exists (x :: junk), raw. cbn [forallb app]. rewrite U, J. auto.
  - intro H. pose proof (drain_stops x w U) as S. cbn [drain] in S.
    rewrite S in H. injection H as <-.
    exists [], x. auto.
Qed.

Lemma drain_print_skips (junk rest : list bytes) :
  forallb undecodable junk = true -> drain_print (junk ++ rest) = drain_print rest.
Proof.
  induction junk as [|raw junk IH]; cbn [forallb app drain_print]; [reflexivity|].
  intro H. apply andb_prop in H. destruct H as [U H]. unfold undecodable in U.
  destruct (utf8_decode raw); [discriminate|exact (IH H)].
Qed.

Lemma drain_print_stops (raw : bytes) (rest : list bytes) :
  undecodable raw = false -> drain_print (raw :: rest) = Some rest.
Proof.
  unfold undecodable. cbn [drain_print].
  destruct (utf8_decode raw); [reflexivity|discriminate].
Qed.

(** After the reset each [readline()] gives the next chunk of the wire:
    the loops are written on the wire for that reason. *)
Lemma readline_after_reset (c : serial) :
  readline (reset_input_buffer c) =
  match wire c with
  | raw :: rest => Some (raw, mkSerial [] rest)
  | [] => None
  end.
Proof. reflexivity. Qed.

(** [flush_serial] never raises. *)
Lemma flush_serial_no_raise (c : serial) (e : exn) : flush_serial c <> Raised e.
Proof. unfold flush_serial. destruct (drain _); discriminate. Qed.

Lemma flush_serial_print_no_raise (c : serial) (e : exn) :
  flush_serial_print c <> Raised e.
Proof. unfold flush_serial_print. destruct (drain_print _); discriminate. Qed.

Lemma flush_serial_inv (c c' : serial) :
  flush_serial c = Returned c' ->
  in_waiting c' = [] /\ drain (wire c) = Some (wire c').
Proof.
  unfold flush_serial. cbn [reset_input_buffer wire].
  destruct (drain (wire c)) as [rest|]; [|discriminate].
  intro H. injection H as <-. auto.
Qed.

End Drain.

(** ** The acquisition loop *)

Section Scan.

Variable parse : parser.
Variable limit : nat.

(** With the budget spent the loop is not entered. *)
Lemma scan_spent (r : nat) (w : list bytes) :
  limit <= r -> scan parse limit r w = (after_loop, []).
Proof.
  intro H. apply Nat.ltb_ge in H.
  destruct w; cbn [scan]; rewrite H; reflexivity.
Qed.

Lemma scan_nil (r : nat) :
  r < limit -> scan parse limit r [] = (Blocked, []).
Proof. intro H. apply Nat.ltb_lt in H. cbn [scan]. rewrite H. reflexivity. Qed.

(** One chunk of the loop: the line read in the handler of [ParseError]
    is treated as the line read at the top, with the same retry count. *)
Lemma scan_step (r : nat) (raw : bytes) (rest : list bytes) :
  r < limit ->
  scan parse limit r (raw :: rest) =
  match utf8_decode raw with
  | None => (Raised UnicodeDecodeError, [])
  | Some line =>
      handed line
        match parse line with
        | Some s =>
            if is_GGA s then (fix_of s, [])
            else scan parse limit (S r) rest
        | None => scan parse limit r rest
        end
  end.
Proof.
  intro H. apply Nat.ltb_lt in H. cbn [scan]. rewrite H.
  destruct (utf8_decode raw) as [line|]; [|reflexivity].
  destruct rest as [|raw' rest]; destruct (parse line) as [s|];
    try reflexivity; cbn [scan]; rewrite H; reflexivity.
Qed.

(** The same, by the kind of the chunk and for the result alone. *)
Lemma scan_kind (r : nat) (raw : bytes) (rest : list bytes) :
  r < limit ->
  fst (scan parse limit r (raw :: rest)) =
  match classify parse raw with
  | Undecodable => Raised UnicodeDecodeError
  | Malformed => fst (scan parse limit r rest)
  | WrongType => fst (scan parse limit (S r) rest)
  | Target s => fix_of s
  end.
Proof.
  intro H. rewrite (scan_step r raw rest H). unfold classify.
  destruct (utf8_decode raw) as [line|]; [|reflexivity].
  destruct (parse line) as [s|]; [|reflexivity].
  destruct (is_GGA s); reflexivity.
Qed.

Lemma wrong_types_cons (raw : bytes) (w : list bytes) :
  wrong_types parse (raw :: w) =
  (if is_wrong_type parse raw then 1 else 0) + wrong_types parse w.
Proof.
  unfold wrong_types. cbn [filter].
  destruct (is_wrong_type parse raw); reflexivity.
Qed.

Lemma kind_flags (raw : bytes) :
  match classify parse raw with
  | Malformed => no_target parse raw = true /\ is_wrong_type parse raw = false
  | WrongType => no_target parse raw = true /\ is_wrong_type parse raw = true
  | _ => no_target parse raw = false /\ is_wrong_type parse raw = false
  end.
Proof.
  unfold no_target, is_malformed, is_wrong_type.
  destruct (classify parse raw); auto.
Qed.

(** Chunks without a GGA sentence move the retry count by the number of
    well-formed sentences among them, and by nothing else. *)
Lemma scan_prefix (pre w : list bytes) (r : nat) :
  forallb (no_target parse) pre = true ->
  fst (scan parse limit r (pre ++ w)) =
  fst (scan parse limit (r + wrong_types parse pre) w).
Proof.
  revert r. induction pre as [|raw pre IH]; intros r H.
  - cbn. rewrite Nat.add_0_r. reflexivity.
  - cbn [forallb] in H. apply andb_prop in H. destruct H as [K H].
    destruct (Nat.lt_ge_cases r limit) as [L|L].
    + cbn [app]. rewrite (scan_kind r raw (pre ++ w) L), wrong_types_cons.
      pose proof (kind_flags raw) as F.
      destruct (classify parse raw); destruct F as [F1 F2]; try congruence;
        rewrite F2.
      * rewrite (IH r H). reflexivity.
      * rewrite (IH (S r) H), Nat.add_succ_comm. reflexivity.
    + rewrite !scan_spent by lia. reflexivity.
Qed.

(** Lines that do not parse can be taken out of the stream. *)
Lemma scan_skip_malformed (w : list bytes) (r : nat) :
  fst (scan parse limit r w) =
  fst (scan parse limit r (filter (fun raw => negb (is_malformed parse raw)) w)).
Proof.
  revert r. induction w as [|raw w IH]; intro r; [reflexivity|].
  destruct (Nat.lt_ge_cases r limit) as [L|L].
  - cbn [filter]. unfold is_malformed at 1.
    destruct (classify parse raw) eqn:K; cbn [negb].
    + rewrite !scan_kind by exact L. rewrite K. reflexivity.
    + rewrite scan_kind by exact L. rewrite K. apply IH.
    + rewrite !scan_kind by exact L. rewrite K. apply IH.
    + rewrite !scan_kind by exact L. rewrite K. reflexivity.
  - rewrite !scan_spent by exact L. reflexivity.
Qed.

(** A fix that is returned was made from a GGA sentence of the stream,
    reached within the budget. *)
Lemma scan_returned (w : list bytes) (r : nat) (fix_ : LatLon) :
  fst (scan parse limit r w) = Returned fix_ ->
  exists pre raw post s,
    w = pre ++ raw :: post /\ forallb (no_target parse) pre = true /\
    r + wrong_types parse pre < limit /\
    classify parse raw = Target s /\ fix_of s = Returned fix_.
Proof.
  revert r. induction w as [|raw w IH]; intros r H.
  - destruct (Nat.lt_ge_cases r limit) as [L|L].
    + rewrite scan_nil in H by exact L. discriminate.
    + rewrite scan_spent in H by exact L. discriminate.
  - destruct (Nat.lt_ge_cases r limit) as [L|L].
    2:{ rewrite scan_spent in H by exact L. discriminate. }
    rewrite scan_kind in H by exact L.
    destruct (classify parse raw) eqn:K; try discriminate.
    + destruct (IH r H) as (pre & x & post & s & -> & P & B & T & F).
      pose proof (kind_flags raw) as G. rewrite K in G. destruct G as [G1 G2].
      exists (raw :: pre), x, post, s.
      cbn [forallb app]. rewrite wrong_types_cons, G1, G2, P. auto.
    + destruct (IH (S r) H) as (pre & x & post & s & -> & P & B & T & F).
      pose proof (kind_flags raw) as G. rewrite K in G. destruct G as [G1 G2].
      exists (raw :: pre), x, post, s.
      cbn [forallb app]. rewrite wrong_types_cons, G1, G2, P.
      repeat split; auto. lia.
    + exists [], raw, w, s. cbn. rewrite Nat.add_0_r. auto.
Qed.

(** Every line given to the parser is a chunk of the stream as decoded,
    with nothing taken off. *)
Lemma scan_handed (w : list bytes) (r : nat) (line : str) :
  In line (snd (scan parse limit r w)) ->
  exists raw, In raw w /\ utf8_decode raw = Some line.
Proof.
  revert r. induction w as [|raw w IH]; intros r H.
  - destruct (Nat.lt_ge_cases r limit) as [L|L].
    + rewrite scan_nil in H by exact L. destruct H.
    + rewrite scan_spent in H by exact L. destruct H.
  - destruct (Nat.lt_ge_cases r limit) as [L|L].
    2:{ rewrite scan_spent in H by exact L. destruct H. }
    rewrite scan_step in H by exact L.
    destruct (utf8_decode raw) as [l|] eqn:D; [|destruct H].
    cbn [handed snd] in H. destruct H as [<-|H].
    { exists raw. split; [left; reflexivity|exact D]. }
    assert (T : exists r', In line (snd (scan parse limit r' w))).
    { destruct (parse l) as [s|]; [destruct (is_GGA s)|].
      - destruct H.
      - exists (S r). exact H.
      - exists r. exact H. }
    destruct T as [r' T]. destruct (IH r' T) as (x & I & E).
    exists x. split; [right; exact I|exact E].
Qed.

End Scan.

(** ** Degrees and minutes *)

Section DegreesMinutes.

Lemma split_dot_digits (ip fp : str) :
  forallb is_digit ip = true -> split_dot (ip ++ 46%N :: fp) = Some (ip, fp).
Proof.
  induction ip as [|c ip IH]; cbn [forallb app split_dot]; [reflexivity|].
  intro H. apply andb_prop in H. destruct H as [D H].
  destruct (N.eqb_spec c 46) as [->|_]; [discriminate|].
  rewrite (IH H). reflexivity.
Qed.

Lemma chop_newline_digits (s fr : str) :
  is_digits fr = true -> chop_newline (s ++ fr) = s ++ fr.
Proof.
  unfold is_digits, chop_newline. intro H. apply andb_prop in H.
  destruct H as [T D]. rewrite rev_app_distr.
  destruct (rev fr) as [|c r] eqn:E.
  - apply (f_equal (@rev N)) in E. rewrite rev_involutive in E.
    subst fr. discriminate.
  - assert (I : In c fr) by (apply in_rev; rewrite E; left; reflexivity).
    rewrite forallb_forall in D. specialize (D c I). cbn [app].
    destruct c as [|p]; [reflexivity|].
    destruct (Pos.eq_dec p 10) as [->|NE]; [discriminate|].
    do 4 (destruct p as [p|p|]; try reflexivity; try congruence).
Qed.

(** On DDDMM.MMMM the conversion is degrees plus minutes over sixty. *)
Lemma dm_to_sd_formula (d mm fr : str) :
  is_dm d mm fr = true ->
  dm_to_sd (dm_text d mm fr) =
  Returned (float_of_int d + float_of_decimal mm fr / 60)%float.
Proof.
  unfold is_dm, dm_text. intro H.
  apply andb_prop in H. destruct H as [H Hfr].
  apply andb_prop in H. destruct H as [H Hmm].
  apply andb_prop in H. destruct H as [Hd Hlen].
  apply Nat.eqb_eq in Hlen.
  destruct mm as [|m1 [|m2 [|? ?]]]; try discriminate. clear Hlen.
  pose proof Hd as Hd'. unfold is_digits in Hd'. apply andb_prop in Hd'.
  destruct Hd' as [Td Dd].
  pose proof Hfr as Hfr'. unfold is_digits in Hfr'. apply andb_prop in Hfr'.
  destruct Hfr' as [Tf Df].
  unfold dm_to_sd.
  assert (E0 : negb (truthy (d ++ [m1; m2] ++ 46%N :: fr))
               || str_eqb (d ++ [m1; m2] ++ 46%N :: fr) (text_of "0") = false).
  { destruct d as [|x d]; [discriminate|]. cbn [app truthy negb orb].
    change (text_of "0") with [48%N]. cbn [str_eqb].
    destruct d; cbn [app str_eqb]; apply andb_false_r. }
  rewrite E0. unfold dm_match.
  replace (d ++ [m1; m2] ++ 46%N :: fr)
    with ((d ++ [m1; m2] ++ [46%N]) ++ fr)
    by (rewrite <- !app_assoc; reflexivity).
  rewrite (chop_newline_digits _ _ Hfr).
  replace ((d ++ [m1; m2] ++ [46%N]) ++ fr)
    with ((d ++ [m1; m2]) ++ 46%N :: fr)
    by (rewrite <- !app_assoc; reflexivity).
  assert (Dip : forallb is_digit (d ++ [m1; m2]) = true).
  { rewrite forallb_app, Dd. exact Hmm. }
  rewrite (split_dot_digits _ _ Dip), Dip, Df.
  assert (L : List.length (d ++ [m1; m2]) - 2 = List.length d).
  { rewrite length_app. cbn. lia. }
  assert (L3 : Nat.leb 3 (List.length (d ++ [m1; m2])) = true).
  { apply Nat.leb_le. rewrite length_app. destruct d; [discriminate|]. cbn. lia. }
  assert (L1 : Nat.leb 1 (List.length fr) = true).
  { destruct fr; [discriminate|reflexivity]. }
  rewrite L3, L1, L. cbn [andb].
  rewrite firstn_app, skipn_app, Nat.sub_diag, firstn_all, skipn_all.
  cbn [firstn skipn app]. rewrite app_nil_r. reflexivity.
Qed.

Lemma digits_fold_nonneg (s : str) (acc : Z) :
  (0 <= acc)%Z -> forallb is_digit s = true ->
  (0 <= fold_left (fun a c => 10 * a + digit_val c) s acc)%Z.
Proof.
  revert acc. induction s as [|c s IH]; intros a A H; cbn [fold_left]; [exact A|].
  cbn [forallb] in H. apply andb_prop in H. destruct H as [D H].
  apply IH; [|exact H]. unfold is_digit, in_range in D. unfold digit_val.
  apply andb_prop in D. destruct D as [D1 D2]. apply N.leb_le in D1. lia.
Qed.

Lemma float_of_int_nonneg (d : str) :
  forallb is_digit d = true -> sf_nonneg (Prim2SF (float_of_int d)) = true.
Proof.
  intro H. unfold float_of_int. apply SF2Prim_nonneg, binary_normalize_nonneg.
  apply digits_fold_nonneg; [lia|exact H].
Qed.

Lemma float_of_decimal_nonneg (i f : str) :
  sf_nonneg (Prim2SF (float_of_decimal i f)) = true.
Proof.
  unfold float_of_decimal. destruct (digits_val (i ++ f)); try reflexivity.
  apply SF2Prim_nonneg, SFdiv_nonneg. reflexivity.
Qed.

Lemma forallb_firstn {A} (f : A -> bool) n l :
  forallb f l = true -> forallb f (firstn n l) = true.
Proof.
  revert n. induction l as [|x l IH]; intros [|n] H; try reflexivity.
  cbn [forallb firstn] in *. apply andb_prop in H. destruct H as [H1 H2].
  rewrite H1, (IH n H2). reflexivity.
Qed.

(** What [dm_to_sd] returns is never below zero. *)
Lemma dm_to_sd_nonneg (dm : str) (a : float) :
  dm_to_sd dm = Returned a -> (0 <=? a)%float = true.
Proof.
  unfold dm_to_sd.
  destruct (negb (truthy dm) || str_eqb dm (text_of "0")).
  { intro H. assert (E : 0%float = a) by congruence. subst a. reflexivity. }
  unfold dm_match.
  destruct (split_dot (chop_newline dm)) as [[ip fp]|]; [|discriminate].
  destruct (forallb is_digit ip) eqn:D; [|discriminate]. cbn [andb].
  destruct (forallb is_digit fp && Nat.leb 3 (List.length ip)
            && Nat.leb 1 (List.length fp)); [|discriminate].
  intro H.
  assert (E : (float_of_int (firstn (List.length ip - 2) ip)
               + float_of_decimal (skipn (List.length ip - 2) ip) fp / 60)%float
              = a) by congruence.
  subst a.
  apply leb_zero_nonneg. rewrite add_spec, div_spec.
  apply SFadd_nonneg.
  - apply float_of_int_nonneg, forallb_firstn, D.
  - change (Prim2SF 60) with (S754_finite false 8444249301319680 (-47)).
    apply SFdiv_nonneg, float_of_decimal_nonneg.
Qed.

End DegreesMinutes.

(** ** [get_next_location] as a whole *)

Section NextLocation.

Variable parse : parser.

Lemma get_next_location_after_drain (conn c : serial) :
  flush_serial conn = Returned c ->
  get_next_location_traced parse conn = scan parse retry_limit 0 (wire c).
Proof. unfold get_next_location_traced. intros ->. reflexivity. Qed.

(** The fix made from a GGA sentence: each magnitude converted alone,
    then the sign by the hemisphere letter. *)
Lemma fix_of_value (s : sentence) (a b : float) :
  dm_to_sd (s_lat s) = Returned a -> dm_to_sd (s_lon s) = Returned b ->
  fix_of s =
  Returned (mkLatLon (signed (southern s) a) (signed (western s) b)
              (num_sats s)).
Proof.
  intros A B. unfold fix_of, signed, southern, western. rewrite A, B.
  cbn [bind LatLon_new]. rewrite !mul_neg_one. reflexivity.
Qed.

Lemma fix_of_inv (s : sentence) (fix_ : LatLon) :
  fix_of s = Returned fix_ ->
  exists a b,
    dm_to_sd (s_lat s) = Returned a /\ dm_to_sd (s_lon s) = Returned b /\
    fix_ = mkLatLon (signed (southern s) a) (signed (western s) b)
             (num_sats s).
Proof.
  intro H. destruct (dm_to_sd (s_lat s)) as [a| |] eqn:A;
    try (unfold fix_of in H; rewrite A in H; discriminate).
  destruct (dm_to_sd (s_lon s)) as [b| |] eqn:B;
    try (unfold fix_of in H; rewrite A, B in H; discriminate).
  rewrite (fix_of_value s a b A B) in H. injection H as <-.
  exists a, b. auto.
Qed.

Lemma reaches_fix (conn : serial) (s : sentence) :
  reaches parse conn s -> get_next_location parse conn = fix_of s.
Proof.
  intros (c & pre & raw & post & F & W & P & B & T).
  unfold get_next_location.
  rewrite (get_next_location_after_drain conn c F), W.
  rewrite (scan_prefix parse retry_limit pre (raw :: post) 0 P).
  rewrite scan_kind by exact B. rewrite T. reflexivity.
Qed.

Lemma returned_reaches (conn : serial) (fix_ : LatLon) :
  get_next_location parse conn = Returned fix_ ->
  exists s, reaches parse conn s /\ fix_of s = Returned fix_.
Proof.
  unfold get_next_location, get_next_location_traced.
  destruct (flush_serial conn) as [c| |] eqn:F; try discriminate.
  intro H. apply scan_returned in H.
  destruct H as (pre & raw & post & s & W & P & B & T & V).
  exists s. split; [|exact V].
  exists c, pre, raw, post. auto.
Qed.

End NextLocation.

(** ** The printing loop *)

Section Printing.

Lemma print_loop_lines (w : list bytes) (line : str) :
  In line (snd (print_loop w)) -> clean line /\ truthy line = true.
Proof.
  induction w as [|raw w IH]; cbn [print_loop]; [intros []|].
  destruct (utf8_decode raw) as [text|]; [|intros []].
  destruct (truthy (strip text)) eqn:T; [|exact IH].
  cbn [printed snd]. intros [<-|H]; [|exact (IH H)].
  split; [apply strip_clean|exact T].
Qed.

End Printing.

(** * The claims *)

Import Script.

(** C1.  When a hundred well-formed sentences of another type come before
    any GGA sentence, [get_next_location] reaches [return LatLon(-999, -999)].
    The class [LatLon] has three fields and no default, so that call raises
    [TypeError]: the caller gets an exception, and no sentinel value. *)
Theorem budget_spent_raises_type_error
  (parse : parser) (conn c : serial) (pre post : list bytes) :
  flush_serial conn = Returned c ->
  wire c = pre ++ post ->
  forallb (no_target parse) pre = true ->
  retry_limit <= wrong_types parse pre ->
  get_next_location parse conn = Raised TypeError.
Proof.
  intros F W P B. unfold get_next_location.
  rewrite (get_next_location_after_drain parse conn c F), W.
  rewrite (scan_prefix parse retry_limit pre post 0 P).
  rewrite scan_spent by (cbn [Nat.add]; exact B). reflexivity.
Qed.

Lemma budget_spent_raises_type_error_witness :
  get_next_location Reference.parse hundred_rmc = Raised TypeError.
Proof.
  apply (budget_spent_raises_type_error Reference.parse hundred_rmc
           (port (repeat (line rmc_text) 100))
           (repeat (line rmc_text) 100) []).
  - vm_compute. reflexivity.
  - vm_compute. reflexivity.
  - vm_compute. reflexivity.
  - vm_compute. lia.
Defined.

(** C2.  In the acquisition loop a line that does not parse costs
    nothing: taking such lines out of the stream changes no result.  Each
    well-formed sentence of another type costs one attempt: after a stretch
    of chunks without a GGA sentence the retry count has grown by the
    number of well-formed sentences in it.  The loop is left for the
    statement after it exactly when that number reaches the budget; with
    fewer, the loop is still reading.  This holds for every budget, the
    source's 100 included. *)
Theorem budget_counts_wrong_types_only
  (parse : parser) (limit : nat) (pre w : list bytes) :
  forallb (no_target parse) pre = true ->
  fst (scan parse limit 0 w) =
    fst (scan parse limit 0
           (filter (fun raw => negb (is_malformed parse raw)) w)) /\
  fst (scan parse limit 0 (pre ++ w)) =
    fst (scan parse limit (wrong_types parse pre) w) /\
  fst (scan parse limit 0 pre) =
    (if Nat.leb limit (wrong_types parse pre) then after_loop else Blocked) /\
  (forall conn c, flush_serial conn = Returned c -> wire c = pre ->
     get_next_location parse conn =
     if Nat.leb retry_limit (wrong_types parse pre) then after_loop else Blocked).
Proof.
  intro P.
  assert (E : forall l, fst (scan parse l 0 pre) =
                        if Nat.leb l (wrong_types parse pre)
                        then after_loop else Blocked).
  { intro l. rewrite <- (app_nil_r pre) at 1.
    rewrite (scan_prefix parse l pre [] 0 P). cbn [Nat.add].
    destruct (Nat.leb_spec l (wrong_types parse pre)) as [L|L].
    - rewrite scan_spent by exact L. reflexivity.
    - rewrite scan_nil by exact L. reflexivity. }
  repeat split.
  - apply scan_skip_malformed.
  - apply (scan_prefix parse limit pre w 0 P).
  - apply E.
  - intros conn c F W. unfold get_next_location.
    rewrite (get_next_location_after_drain parse conn c F), W. apply E.
Qed.

Lemma budget_counts_wrong_types_only_witness :
  forallb (no_target Reference.parse) interleaved = true /\
  wrong_types Reference.parse interleaved = 2 /\
  fst (scan Reference.parse 2 0 interleaved) = after_loop /\
  fst (scan Reference.parse 3 0 interleaved) = Blocked.
Proof.
  assert (P : forallb (no_target Reference.parse) interleaved = true)
    by (vm_compute; reflexivity).
  split; [exact P|]. split; [vm_compute; reflexivity|]. split.
  - exact (proj1 (proj2 (proj2
      (budget_counts_wrong_types_only Reference.parse 2 interleaved [] P)))).
  - exact (proj1 (proj2 (proj2
      (budget_counts_wrong_types_only Reference.parse 3 interleaved [] P)))).
Defined.

(** C3.  [flush_serial] catches [UnicodeDecodeError] and reads on.
    [get_next_location] does not: a chunk that does not decode, read at the
    top of the loop or in the handler of [ParseError] while the budget
    lasts, ends the call with [UnicodeDecodeError]. *)
Theorem decode_error_leaves_get_next_location
  (parse : parser) (conn c : serial) (pre : list bytes) (raw : bytes)
  (post : list bytes) :
  flush_serial conn = Returned c ->
  wire c = pre ++ raw :: post ->
  forallb (no_target parse) pre = true ->
  wrong_types parse pre < retry_limit ->
  utf8_decode raw = None ->
  (forall conn' e, flush_serial conn' <> Raised e) /\
  get_next_location parse conn = Raised UnicodeDecodeError.
Proof.
  intros F W P B D. split; [exact flush_serial_no_raise|].
  unfold get_next_location.
  rewrite (get_next_location_after_drain parse conn c F), W.
  rewrite (scan_prefix parse retry_limit pre (raw :: post) 0 P).
  rewrite scan_kind by exact B. unfold classify. rewrite D. reflexivity.
Qed.

Lemma decode_error_leaves_get_next_location_witness :
  flush_serial torn_in_drain = Returned (port [line gga_text]) /\
  get_next_location Reference.parse torn_after_drain = Raised UnicodeDecodeError.
Proof.
  split; [vm_compute; reflexivity|].
  apply (decode_error_leaves_get_next_location Reference.parse torn_after_drain
           (port [torn; line gga_text]) [] torn [line gga_text]).
  - vm_compute. reflexivity.
  - reflexivity.
  - reflexivity.
  - unfold retry_limit, wrong_types. cbn. lia.
  - vm_compute. reflexivity.
Defined.

(** C4.  For a GGA sentence whose coordinates are written DDDMM.MMMM,
    [get_next_location] returns, for each coordinate, degrees plus minutes
    over sixty computed from the digits alone, negated exactly when the
    latitude letter is S (the longitude letter is W) and left as computed
    otherwise; the satellites field is carried over.  The magnitudes are
    never below zero, so the sign of a coordinate comes from the hemisphere
    letter alone. *)
Theorem hemisphere_applied_after_conversion
  (parse : parser) (conn : serial) (s : sentence)
  (dlat mlat flat dlon mlon flon : str) :
  reaches parse conn s ->
  s_lat s = dm_text dlat mlat flat -> is_dm dlat mlat flat = true ->
  s_lon s = dm_text dlon mlon flon -> is_dm dlon mlon flon = true ->
  let a := (float_of_int dlat + float_of_decimal mlat flat / 60)%float in
  let b := (float_of_int dlon + float_of_decimal mlon flon / 60)%float in
  get_next_location parse conn =
    Returned (mkLatLon (signed (southern s) a) (signed (western s) b)
                (num_sats s)) /\
  (0 <=? a)%float = true /\ (0 <=? b)%float = true.
Proof.
  intros R Ea Da Eb Db a b.
  pose proof (dm_to_sd_formula dlat mlat flat Da) as A.
  pose proof (dm_to_sd_formula dlon mlon flon Db) as B.
  split; [|split].
  - rewrite (reaches_fix parse conn s R).
    apply fix_of_value; [rewrite Ea; exact A|rewrite Eb; exact B].
  - exact (dm_to_sd_nonneg _ _ A).
  - exact (dm_to_sd_nonneg _ _ B).
Qed.

(** The sentence of [gga_south_west_text], as the parser gives it. *)
Lemma south_west_reached :
  reaches Reference.parse south_west
    (mkSentence (text_of "GGA") (text_of "3746.2900") (text_of "S")
       (text_of "12225.1000") (text_of "W") (PyStr (text_of "05"))).
Proof.
  exists (port [line gga_south_west_text]), [], (line gga_south_west_text), [].
  repeat split; try (vm_compute; reflexivity).
  unfold retry_limit, wrong_types. cbn. lia.
Defined.

Lemma hemisphere_applied_after_conversion_witness :
  get_next_location Reference.parse south_west =
    Returned (mkLatLon (- (37 + 46.29 / 60))%float (- (122 + 25.1 / 60))%float
                (PyStr (text_of "05"))) /\
  (0 <=? 37 + 46.29 / 60)%float = true /\
  (0 <=? 122 + 25.1 / 60)%float = true.
Proof.
  pose proof (hemisphere_applied_after_conversion Reference.parse south_west _
                (text_of "37") (text_of "46") (text_of "2900")
                (text_of "122") (text_of "25") (text_of "1000")
                south_west_reached eq_refl eq_refl eq_refl eq_refl) as H.
  cbv zeta in H. destruct H as (H1 & H2 & H3).
  split; [rewrite H1; vm_compute; reflexivity|].
  split; [exact H2|exact H3].
Defined.

(** C5.  The end-to-end scenario.  Whatever the first line is, the drain
    reads it and throws it away; the GGA line then gives latitude 48.1173 and
    longitude 11.516666666666667, within 1e-4 of the expected values, with a
    budget of 5 as with the source's 100.  The satellites field is the
    object the parser delivered for [num_sats], passed on with no conversion:
    with pynmea2, which delivers the text of the field, the string ['08'],
    and not the integer 8. *)
Theorem scenario_returns_text_satellites
  (parse : parser) (limit : nat) (first : bytes) (s : sentence) :
  unusable first = false ->
  parse (text_of gga_text) = Some s ->
  is_GGA s = true ->
  s_lat s = text_of "4807.038" -> lat_dir s = text_of "N" ->
  s_lon s = text_of "01131.000" -> lon_dir s = text_of "E" ->
  num_sats s = PyStr (text_of "08") ->
  0 < limit ->
  let fix_ := mkLatLon 48.1173 11.516666666666667 (PyStr (text_of "08")) in
  get_next_location parse (port [first; bytes_of gga_text]) = Returned fix_ /\
  fst (scan parse limit 0 [bytes_of gga_text]) = Returned fix_ /\
  (abs (lat fix_ - 48.1173) <? 0.0001)%float = true /\
  (abs (lon fix_ - 11.51667) <? 0.0001)%float = true /\
  num_satellites fix_ <> PyInt 8.
Proof.
  intros U Pg G A Ad B Bd N L fix_.
  assert (K : classify parse (bytes_of gga_text) = Target s).
  { assert (D : utf8_decode (bytes_of gga_text) = Some (text_of gga_text))
      by (vm_compute; reflexivity).
    unfold classify. rewrite D, Pg, G. reflexivity. }
  assert (V : fix_of s = Returned fix_).
  { rewrite (fix_of_value s 48.1173 11.516666666666667).
    - unfold southern, western. rewrite Ad, Bd, N. reflexivity.
    - rewrite A. vm_compute. reflexivity.
    - rewrite B. vm_compute. reflexivity. }
  repeat split.
  - rewrite (reaches_fix parse (port [first; bytes_of gga_text]) s); [exact V|].
    exists (port [bytes_of gga_text]), [], (bytes_of gga_text), [].
    repeat split; auto.
    + unfold flush_serial, port. cbn [reset_input_buffer wire].
      rewrite (drain_stops first _ U). reflexivity.
    + unfold retry_limit, wrong_types. cbn. lia.
  - rewrite scan_kind by exact L. rewrite K. exact V.
  - discriminate.
Qed.

Lemma scenario_returns_text_satellites_witness :
  get_next_location Reference.parse scenario =
    Returned (mkLatLon 48.1173 11.516666666666667 (PyStr (text_of "08"))) /\
  fst (scan Reference.parse 5 0 [bytes_of gga_text]) =
    Returned (mkLatLon 48.1173 11.516666666666667 (PyStr (text_of "08"))).
Proof.
  pose proof (scenario_returns_text_satellites Reference.parse 5
                (bytes_of rmc_elided)
                (mkSentence (text_of "GGA") (text_of "4807.038") (text_of "N")
                   (text_of "01131.000") (text_of "E") (PyStr (text_of "08")))) as H.
  cbv zeta in H.
  destruct H as (H1 & H2 & _); try (vm_compute; reflexivity); [lia|].
  split; [exact H1|exact H2].
Defined.

(** C6, as the code has it.  A fix that is returned was made from a GGA
    sentence reached within the budget: each coordinate is the converted
    magnitude, which is never below zero, with the sign of its hemisphere
    letter, and the satellites field is the text of the sentence's field.
    The latitude lies in [-90, 90] when the latitude magnitude is at most
    90, the longitude in [-180, 180] when the longitude magnitude is at most
    180.  Nothing checks the ranges. *)
Theorem returned_fix_follows_sentence
  (parse : parser) (conn : serial) (fix_ : LatLon) :
  get_next_location parse conn = Returned fix_ ->
  exists s a b,
    reaches parse conn s /\
    dm_to_sd (s_lat s) = Returned a /\ dm_to_sd (s_lon s) = Returned b /\
    fix_ = mkLatLon (signed (southern s) a) (signed (western s) b)
             (num_sats s) /\
    (0 <=? a)%float = true /\ (0 <=? b)%float = true /\
    ((a <=? 90)%float = true -> within 90 (lat fix_)) /\
    ((b <=? 180)%float = true -> within 180 (lon fix_)).
Proof.
  intro H. destruct (returned_reaches parse conn fix_ H) as (s & R & V).
  destruct (fix_of_inv s fix_ V) as (a & b & A & B & ->).
  pose proof (dm_to_sd_nonneg _ _ A) as A0.
  pose proof (dm_to_sd_nonneg _ _ B) as B0.
  exists s, a, b. cbn [lat lon]. unfold within.
  split; [exact R|]. split; [exact A|]. split; [exact B|].
  split; [reflexivity|]. split; [exact A0|]. split; [exact B0|]. split.
  - intro H1. destruct (within_bound a 90 A0 H1) as [[L1 L2] [L3 L4]].
    unfold signed. destruct (southern s); split; assumption.
  - intro H1. destruct (within_bound b 180 B0 H1) as [[L1 L2] [L3 L4]].
    unfold signed. destruct (western s); split; assumption.
Qed.

Lemma returned_fix_follows_sentence_witness :
  exists s a b,
    reaches Reference.parse south_west s /\
    dm_to_sd (s_lat s) = Returned a /\ dm_to_sd (s_lon s) = Returned b /\
    mkLatLon (- (37 + 46.29 / 60))%float (- (122 + 25.1 / 60))%float
      (PyStr (text_of "05")) =
    mkLatLon (signed (southern s) a) (signed (western s) b)
      (num_sats s) /\
    (0 <=? a)%float = true /\ (0 <=? b)%float = true /\
    ((a <=? 90)%float = true -> within 90 (- (37 + 46.29 / 60))%float) /\
    ((b <=? 180)%float = true -> within 180 (- (122 + 25.1 / 60))%float).
Proof.
  apply (returned_fix_follows_sentence Reference.parse south_west
           (mkLatLon (- (37 + 46.29 / 60))%float (- (122 + 25.1 / 60))%float
              (PyStr (text_of "05")))).
  vm_compute. reflexivity.
Defined.

(** C6 as stated fails: a sentence with 99.999 minutes of latitude and
    180 degrees 99 minutes of longitude matches the wire grammar, checksum
    included, and gives a fix beyond both ranges. *)
Lemma fix_outside_the_globe :
  get_next_location Reference.parse far =
    Returned (mkLatLon (89 + 99.999 / 60) (180 + 99 / 60) (PyStr (text_of "08"))) /\
  (90 <? 89 + 99.999 / 60)%float = true /\
  (180 <? 180 + 99 / 60)%float = true /\
  is_valid (mkLatLon (89 + 99.999 / 60) (180 + 99 / 60) (PyStr (text_of "08")))
    = true.
Proof. vm_compute. repeat split; reflexivity. Qed.

(** C7, as the code has it.  [strip] leaves no white space at either end,
    so every line print-gps-data prints is stripped and not empty.  In
    [get_next_location] the decoded chunk goes to the parser as it was
    decoded: each line the parser gets is the decoding of a chunk of the
    stream, line ending included. *)
Theorem lines_stripped_only_where_printed :
  (forall text, clean (strip text)) /\
  (forall conn line,
     In line (snd (print_gps_data conn)) -> clean line /\ truthy line = true) /\
  (forall parse conn line,
     In line (snd (get_next_location_traced parse conn)) ->
     exists raw, In raw (wire conn) /\ utf8_decode raw = Some line).
Proof.
  split; [exact strip_clean|]. split.
  - intros conn line. unfold print_gps_data.
    destruct (flush_serial_print conn); try (intros []).
    apply print_loop_lines.
  - intros parse conn line. unfold get_next_location_traced.
    destruct (flush_serial conn) as [c| |] eqn:F; try (intros []).
    intro H. apply scan_handed in H. destruct H as (raw & I & D).
    exists raw. split; [|exact D].
    destruct (flush_serial_inv conn c F) as [_ W].
    destruct (drain_inv _ _ W) as (junk & x & E & _ & _).
    rewrite E. apply in_or_app. right. right. exact I.
Qed.

Lemma lines_stripped_only_where_printed_witness :
  (clean (text_of gga_text) /\ truthy (text_of gga_text) = true) /\
  exists raw, In raw (wire two_lines) /\
              utf8_decode raw = Some (text_of gga_text ++ [13; 10]%N).
Proof.
  split.
  - apply (proj1 (proj2 lines_stripped_only_where_printed) two_lines).
    vm_compute. left. reflexivity.
  - apply (proj2 (proj2 lines_stripped_only_where_printed) Reference.parse two_lines).
    vm_compute. left. reflexivity.
Defined.

(** C7 as stated fails: the line [get_next_location] gives to the parser
    still ends with carriage return and line feed. *)
Lemma parser_gets_the_line_ending :
  snd (get_next_location_traced Reference.parse two_lines) =
    [text_of gga_text ++ [13; 10]%N] /\
  is_space 10 = true /\
  strip (text_of gga_text ++ [13; 10]%N) = text_of gga_text /\
  hd_error (rev (text_of gga_text ++ [13; 10]%N)) = Some 10%N.
Proof. vm_compute. repeat split; reflexivity. Qed.

(** C8.  A fix that passes the validity test is sent as the object
    [{"gps": {"lat": lat, "lon": lon, "num_satellites": n}}], and from that
    body the storage function builds a record whose location is a [Point]
    with coordinates [[lon, lat]], longitude first. *)
Theorem telemetry_and_record_shape
  (lat_lon : LatLon) (meta : list (string * str)) (device : str) :
  is_valid lat_lon = true ->
  lookup "connection-device-id" meta = Some device ->
  forward lat_lon =
    [Sent (JObj [("gps"%string,
                  JObj [("lat"%string, JFloat (lat lat_lon));
                        ("lon"%string, JFloat (lon lat_lon));
                        ("num_satellites"%string,
                         json_of (num_satellites lat_lon))])])] /\
  main (mkEvent (message_json lat_lon) meta) =
    Returned
      (JObj [("animalid"%string, JStr device);
             ("num_satellites"%string, json_of (num_satellites lat_lon));
             ("location"%string,
              JObj [("type"%string, JStr (text_of "Point"));
                    ("coordinates"%string,
                     JArr [JFloat (lon lat_lon); JFloat (lat lat_lon)])])]).
Proof.
  intros V M. split.
  - unfold forward. rewrite V. reflexivity.
  - unfold main, metadata. cbn [iothub_metadata json_body]. rewrite M.
    reflexivity.
Qed.

Lemma telemetry_and_record_shape_witness :
  main (mkEvent
          (message_json (mkLatLon 48.1173 11.516666666666667 (PyStr (text_of "08"))))
          [("connection-device-id"%string, text_of "gps-sensor")]) =
  Returned
    (JObj [("animalid"%string, JStr (text_of "gps-sensor"));
           ("num_satellites"%string, JStr (text_of "08"));
           ("location"%string,
            JObj [("type"%string, JStr (text_of "Point"));
                  ("coordinates"%string,
                   JArr [JFloat 11.516666666666667; JFloat 48.1173])])]).
Proof.
  apply (telemetry_and_record_shape
           (mkLatLon 48.1173 11.516666666666667 (PyStr (text_of "08")))
           [("connection-device-id"%string, text_of "gps-sensor")]
           (text_of "gps-sensor")).
  - vm_compute. reflexivity.
  - reflexivity.
Defined.

(** The validity test on a converted fix *)

Section Validity.

Lemma SFltb_opp x y : SFltb (SFopp x) (SFopp y) = SFltb y x.
Proof. unfold SFltb. rewrite SFcompare_opp. reflexivity. Qed.

(** [-999 < -a] says [a < 999]. *)
Lemma above_sentinel_negated (a : float) :
  (-999 <? - a)%float = (a <? 999)%float.
Proof.
  rewrite !ltb_spec, opp_spec.
  change (Prim2SF (-999)) with (SFopp (Prim2SF 999)).
  apply SFltb_opp.
Qed.

(** A number that is not negative is above -999. *)
Lemma above_sentinel_nonneg (a : float) :
  (0 <=? a)%float = true -> (-999 <? a)%float = true.
Proof. exact (ltb_leb_trans (-999) 0 a eq_refl). Qed.

Lemma is_valid_signed (sa sb : bool) (a b : float) (n : pyobj) :
  (0 <=? a)%float = true -> (0 <=? b)%float = true ->
  is_valid (mkLatLon (signed sa a) (signed sb b) n) =
  (if sa then (a <? 999)%float else true) &&
  (if sb then (b <? 999)%float else true).
Proof.
  intros A B. unfold is_valid, signed. cbn [lat lon].
  destruct sa, sb; rewrite ?above_sentinel_negated, ?(above_sentinel_nonneg a A),
    ?(above_sentinel_nonneg b B); reflexivity.
Qed.

End Validity.

(** C9, as the code has it.  Both polling loops act on a fix exactly when
    its latitude and its longitude are both strictly above -999.  A fix of
    -999, -999 is skipped whatever its satellites field, and a fix whose
    latitude is at least -90 and whose longitude is at least -180 is acted
    on.  The conversion does not keep a fix within those bounds: a fix that
    [get_next_location] returned is acted on exactly when neither a southern
    latitude nor a western longitude has a magnitude of 999 or more. *)
Theorem validity_test_of_polling_loops :
  (forall lat_lon,
     is_valid lat_lon = true <->
     (-999 <? lat lat_lon)%float = true /\ (-999 <? lon lat_lon)%float = true) /\
  (forall lat_lon, report lat_lon <> [] <-> is_valid lat_lon = true) /\
  (forall lat_lon, forward lat_lon <> [] <-> is_valid lat_lon = true) /\
  (forall n, report (mkLatLon (-999) (-999) n) = [] /\
             forward (mkLatLon (-999) (-999) n) = []) /\
  (forall lat_lon,
     (-90 <=? lat lat_lon)%float = true -> (-180 <=? lon lat_lon)%float = true ->
     is_valid lat_lon = true) /\
  (forall parse conn fix_,
     get_next_location parse conn = Returned fix_ ->
     exists s a b,
       reaches parse conn s /\
       dm_to_sd (s_lat s) = Returned a /\ dm_to_sd (s_lon s) = Returned b /\
       fix_ = mkLatLon (signed (southern s) a) (signed (western s) b)
                (num_sats s) /\
       is_valid fix_ =
         (if southern s then (a <? 999)%float else true) &&
         (if western s then (b <? 999)%float else true)).
Proof.
  split; [|split; [|split; [|split; [|split]]]].
  - intro lat_lon. unfold is_valid. split.
    + intro H. apply andb_prop in H. exact H.
    + intros [A B]. rewrite A, B. reflexivity.
  - intro lat_lon. unfold report.
    destruct (is_valid lat_lon); split; congruence.
  - intro lat_lon. unfold forward.
    destruct (is_valid lat_lon); split; congruence.
  - intro n. split; reflexivity.
  - intros lat_lon A B. unfold is_valid. apply andb_true_intro. split.
    + exact (ltb_leb_trans (-999) (-90) (lat lat_lon) eq_refl A).
    + exact (ltb_leb_trans (-999) (-180) (lon lat_lon) eq_refl B).
  - intros parse conn fix_ H.
    destruct (returned_reaches parse conn fix_ H) as (s & R & V).
    destruct (fix_of_inv s fix_ V) as (a & b & A & B & ->).
    exists s, a, b. split; [exact R|]. split; [exact A|]. split; [exact B|].
    split; [reflexivity|].
    exact (is_valid_signed (southern s) (western s) a b (num_sats s)
             (dm_to_sd_nonneg _ _ A) (dm_to_sd_nonneg _ _ B)).
Qed.

Lemma validity_test_of_polling_loops_witness :
  is_valid sentinel = false /\
  is_valid (mkLatLon (-90) (-180) (PyStr (text_of "04"))) = true /\
  exists s a b,
    reaches Reference.parse Script2.beyond_999 s /\
    dm_to_sd (s_lat s) = Returned a /\ dm_to_sd (s_lon s) = Returned b /\
    mkLatLon (-999) (-999) (PyStr (text_of "08")) =
      mkLatLon (signed (southern s) a) (signed (western s) b) (num_sats s) /\
    is_valid (mkLatLon (-999) (-999) (PyStr (text_of "08"))) =
      (if southern s then (a <? 999)%float else true) &&
      (if western s then (b <? 999)%float else true).
Proof.
  split; [reflexivity|]. split.
  - apply (proj1 (proj2 (proj2 (proj2 (proj2 validity_test_of_polling_loops))))
             (mkLatLon (-90) (-180) (PyStr (text_of "04")))); reflexivity.
  - apply (proj2 (proj2 (proj2 (proj2 (proj2 validity_test_of_polling_loops))))
             Reference.parse Script2.beyond_999
             (mkLatLon (-999) (-999) (PyStr (text_of "08")))).
    vm_compute. reflexivity.
Defined.

(** C9 as stated fails: the conversion can give a fix the test rejects.
    A sentence 999 degrees south and west, checksum right, comes back as the
    fix -999, -999, below the bounds the claim gives a converted fix, and
    neither loop acts on it. *)
Lemma converted_fix_is_skipped :
  get_next_location Reference.parse Script2.beyond_999 =
    Returned (mkLatLon (-999) (-999) (PyStr (text_of "08"))) /\
  (-90 <=? -999)%float = false /\
  is_valid (mkLatLon (-999) (-999) (PyStr (text_of "08"))) = false /\
  report (mkLatLon (-999) (-999) (PyStr (text_of "08"))) = [] /\
  forward (mkLatLon (-999) (-999) (PyStr (text_of "08"))) = [].
Proof. vm_compute. repeat split; reflexivity. Qed.

(** C10.  [flush_serial] drops what the driver had buffered and then
    reads on until a chunk decodes to something other than white space (in
    print-gps-data: until a chunk decodes); while no such chunk comes it
    does not return.  The chunk it stops on is consumed: the connection is
    left at the chunk after it, and [get_next_location] behaves as the
    acquisition loop run on the chunks after it, so the parser never gets
    that line. *)
Theorem flush_serial_consumes_first_clean_line
  (parse : parser) (stale junk : list bytes) (raw : bytes) (rest : list bytes) :
  forallb unusable junk = true ->
  unusable raw = false ->
  flush_serial (mkSerial stale (junk ++ raw :: rest)) =
    Returned (mkSerial [] rest) /\
  flush_serial (mkSerial stale junk) = Blocked /\
  get_next_location_traced parse (mkSerial stale (junk ++ raw :: rest)) =
    scan parse retry_limit 0 rest /\
  (forall line,
     In line (snd (get_next_location_traced parse
                     (mkSerial stale (junk ++ raw :: rest)))) ->
     exists x, In x rest /\ utf8_decode x = Some line) /\
  (forall noise chunk,
     forallb undecodable noise = true -> undecodable chunk = false ->
     flush_serial_print (mkSerial stale (noise ++ chunk :: rest)) =
       Returned (mkSerial [] rest) /\
     flush_serial_print (mkSerial stale noise) = Blocked).
Proof.
  intros J U.
  assert (F : flush_serial (mkSerial stale (junk ++ raw :: rest)) =
              Returned (mkSerial [] rest)).
  { unfold flush_serial. cbn [reset_input_buffer wire].
    rewrite (drain_skips junk (raw :: rest) J), (drain_stops raw rest U).
    reflexivity. }
  assert (G : get_next_location_traced parse
                (mkSerial stale (junk ++ raw :: rest)) =
              scan parse retry_limit 0 rest).
  { rewrite (get_next_location_after_drain parse _ _ F). reflexivity. }
  split; [exact F|]. split.
  { unfold flush_serial. cbn [reset_input_buffer wire].
    rewrite (drain_starved junk J). reflexivity. }
  split; [exact G|]. split.
  { intros line H. rewrite G in H. exact (scan_handed parse _ _ _ _ H). }
  intros noise chunk N C. unfold flush_serial_print.
  cbn [reset_input_buffer wire]. split.
  - rewrite (drain_print_skips noise (chunk :: rest) N),
      (drain_print_stops chunk rest C). reflexivity.
  - rewrite <- (app_nil_r noise), (drain_print_skips noise [] N). reflexivity.
Qed.

Lemma flush_serial_consumes_first_clean_line_witness :
  flush_serial stale = Returned (port [line gga_text]) /\
  get_next_location_traced Reference.parse stale =
    scan Reference.parse retry_limit 0 [line gga_text].
Proof.
  destruct (flush_serial_consumes_first_clean_line Reference.parse
              [line gga_far_text] [torn; crlf] (line rmc_text) [line gga_text])
    as (F & _ & G & _); try (vm_compute; reflexivity).
  split; [exact F|exact G].
Defined.

(** * Further properties of the programs *)

Import Script2.

(** ** The connection after a fix *)

Section Acquire.

Variable parse : parser.
Variable limit : nat.

Lemma acquire_spent (r : nat) (w : list bytes) :
  limit <= r -> acquire parse limit r w = Raised TypeError.
Proof.
  intro H. apply Nat.ltb_ge in H.
  destruct w; cbn [acquire]; rewrite H; reflexivity.
Qed.

Lemma acquire_nil (r : nat) : r < limit -> acquire parse limit r [] = Blocked.
Proof. intro H. apply Nat.ltb_lt in H. cbn [acquire]. rewrite H. reflexivity. Qed.

Lemma acquire_kind (r : nat) (raw : bytes) (rest : list bytes) :
  r < limit ->
  acquire parse limit r (raw :: rest) =
  match classify parse raw with
  | Undecodable => Raised UnicodeDecodeError
  | Malformed => acquire parse limit r rest
  | WrongType => acquire parse limit (S r) rest
  | Target s => lat_lon <- fix_of s ;; Returned (lat_lon, rest)
  end.
Proof.
  intro H. apply Nat.ltb_lt in H. unfold classify. cbn [acquire]. rewrite H.
  destruct (utf8_decode raw) as [line|]; [|reflexivity].
  destruct rest as [|raw' rest]; destruct (parse line) as [s|];
    try destruct (is_GGA s); try reflexivity; cbn [acquire]; rewrite H;
    reflexivity.
Qed.

(** The two readings of the loop give the same result. *)
Lemma acquire_scan (w : list bytes) (r : nat) :
  outcome_map fst (acquire parse limit r w) = fst (scan parse limit r w).
Proof.
  revert r. induction w as [|raw w IH]; intro r.
  - destruct (Nat.lt_ge_cases r limit) as [L|L].
    + rewrite acquire_nil, scan_nil by exact L. reflexivity.
    + rewrite acquire_spent, scan_spent by exact L. reflexivity.
  - destruct (Nat.lt_ge_cases r limit) as [L|L].
    + rewrite acquire_kind, scan_kind by exact L.
      destruct (classify parse raw) as [| | |s]; try apply IH; try reflexivity.
      destruct (fix_of s); reflexivity.
    + rewrite acquire_spent, scan_spent by exact L. reflexivity.
Qed.

Lemma acquire_prefix (pre w : list bytes) (r : nat) :
  forallb (no_target parse) pre = true ->
  acquire parse limit r (pre ++ w) =
  acquire parse limit (r + wrong_types parse pre) w.
Proof.
  revert r. induction pre as [|raw pre IH]; intros r H.
  - cbn. rewrite Nat.add_0_r. reflexivity.
  - cbn [forallb] in H. apply andb_prop in H. destruct H as [K H].
    destruct (Nat.lt_ge_cases r limit) as [L|L].
    + cbn [app]. rewrite (acquire_kind r raw (pre ++ w) L), wrong_types_cons.
      pose proof (kind_flags parse raw) as F.
      destruct (classify parse raw); destruct F as [F1 F2]; try congruence;
        rewrite F2.
      * rewrite (IH r H). reflexivity.
      * rewrite (IH (S r) H), Nat.add_succ_comm. reflexivity.
    + rewrite !acquire_spent by lia. reflexivity.
Qed.

Lemma acquire_returned (w left : list bytes) (r : nat) (fix_ : LatLon) :
  acquire parse limit r w = Returned (fix_, left) ->
  exists pre raw s,
    w = pre ++ raw :: left /\ forallb (no_target parse) pre = true /\
    r + wrong_types parse pre < limit /\
    classify parse raw = Target s /\ fix_of s = Returned fix_.
Proof.
  revert r. induction w as [|raw w IH]; intros r H.
  - destruct (Nat.lt_ge_cases r limit) as [L|L].
    + rewrite acquire_nil in H by exact L. discriminate.
    + rewrite acquire_spent in H by exact L. discriminate.
  - destruct (Nat.lt_ge_cases r limit) as [L|L].
    2:{ rewrite acquire_spent in H by exact L. discriminate. }
    rewrite acquire_kind in H by exact L.
    pose proof (kind_flags parse raw) as G.
    destruct (classify parse raw) as [| | |s] eqn:K; try discriminate.
    + destruct G as [G1 G2].
      destruct (IH r H) as (pre & x & s & -> & P & B & T & F).
      exists (raw :: pre), x, s.
      cbn [forallb app]. rewrite wrong_types_cons, G1, G2, P. auto.
    + destruct G as [G1 G2].
      destruct (IH (S r) H) as (pre & x & s & -> & P & B & T & F).
      exists (raw :: pre), x, s.
      cbn [forallb app]. rewrite wrong_types_cons, G1, G2, P.
      repeat split; auto. lia.
    + destruct (fix_of s) as [ll| |] eqn:F; try discriminate.
      cbn [bind] in H. assert (E : (ll, w) = (fix_, left)) by congruence.
      injection E as <- <-.
      exists [], raw, s. cbn. rewrite Nat.add_0_r. auto.
Qed.

End Acquire.

(** ** More on the acquisition loop *)

Section ScanMore.

Variable parse : parser.
Variable limit : nat.

Lemma wrong_types_app (u v : list bytes) :
  wrong_types parse (u ++ v) = wrong_types parse u + wrong_types parse v.
Proof. unfold wrong_types. rewrite filter_app, length_app. reflexivity. Qed.

Lemma decoded_app (u v : list bytes) : decoded (u ++ v) = decoded u ++ decoded v.
Proof. unfold decoded. apply flat_map_app. Qed.

(** The conversion raises nothing but [ValueError]. *)
Lemma fix_of_raises (s : sentence) (e : exn) :
  fix_of s = Raised e -> e = ValueError.
Proof.
  unfold fix_of.
  assert (D : forall t x, dm_to_sd t = Raised x -> x = ValueError).
  { intros t x. unfold dm_to_sd.
    destruct (negb (truthy t) || str_eqb t (text_of "0")); [discriminate|].
    destruct (dm_match t) as [[[d mm] fr]|]; [discriminate|congruence]. }
  destruct (dm_to_sd (s_lat s)) as [a|x|] eqn:A; cbn [bind];
    [|intro H; injection H as <-; exact (D _ _ A)|discriminate].
  destruct (dm_to_sd (s_lon s)) as [b|x|] eqn:B; cbn [bind LatLon_new];
    [discriminate|intro H; injection H as <-; exact (D _ _ B)|discriminate].
Qed.

Lemma fix_of_not_blocked (s : sentence) : fix_of s <> Blocked.
Proof.
  unfold fix_of.
  assert (D : forall t, dm_to_sd t <> Blocked).
  { intro t. unfold dm_to_sd.
    destruct (negb (truthy t) || str_eqb t (text_of "0")); [discriminate|].
    destruct (dm_match t) as [[[d mm] fr]|]; discriminate. }
  destruct (dm_to_sd (s_lat s)) as [a|x|] eqn:A; cbn [bind];
    [|discriminate|exact (fun _ => D _ A)].
  destruct (dm_to_sd (s_lon s)) as [b|x|] eqn:B; cbn [bind LatLon_new];
    [discriminate|discriminate|exact (fun _ => D _ B)].
Qed.

(** Why the loop raised. *)
Lemma scan_raised (w : list bytes) (r : nat) (e : exn) :
  fst (scan parse limit r w) = Raised e ->
  (e = UnicodeDecodeError /\ exists raw, In raw w /\ utf8_decode raw = None) \/
  (e = TypeError /\ limit <= r + wrong_types parse w) \/
  (e = ValueError /\
   exists pre raw post s,
     w = pre ++ raw :: post /\ forallb (no_target parse) pre = true /\
     r + wrong_types parse pre < limit /\
     classify parse raw = Target s /\ fix_of s = Raised ValueError).
Proof.
  revert r. induction w as [|raw w IH]; intros r H.
  - destruct (Nat.lt_ge_cases r limit) as [L|L].
    + rewrite scan_nil in H by exact L. discriminate.
    + rewrite scan_spent in H by exact L. cbn in H.
      right. left. split; [congruence|]. unfold wrong_types. cbn. lia.
  - destruct (Nat.lt_ge_cases r limit) as [L|L].
    2:{ rewrite scan_spent in H by exact L. cbn in H.
        right. left. split; [congruence|]. lia. }
    rewrite scan_kind in H by exact L.
    pose proof (kind_flags parse raw) as G.
    destruct (classify parse raw) as [| | |s] eqn:K.
    + left. split; [congruence|]. exists raw. split; [left; reflexivity|].
      unfold classify in K. destruct (utf8_decode raw) as [l|]; [|reflexivity].
      destruct (parse l) as [x|]; [destruct (is_GGA x)|]; discriminate.
    + destruct G as [G1 G2].
      destruct (IH r H) as [(E & x & I & D)|[(E & B)|(E & pre & x & post & s & -> & P & B & T & F)]].
      * left. split; [exact E|]. exists x. split; [right; exact I|exact D].
      * right. left. split; [exact E|]. rewrite wrong_types_cons, G2. exact B.
      * right. right. split; [exact E|]. exists (raw :: pre), x, post, s.
        cbn [forallb app]. rewrite wrong_types_cons, G1, G2, P. auto.
    + destruct G as [G1 G2].
      destruct (IH (S r) H) as [(E & x & I & D)|[(E & B)|(E & pre & x & post & s & -> & P & B & T & F)]].
      * left. split; [exact E|]. exists x. split; [right; exact I|exact D].
      * right. left. split; [exact E|]. rewrite wrong_types_cons, G2. lia.
      * right. right. split; [exact E|]. exists (raw :: pre), x, post, s.
        cbn [forallb app]. rewrite wrong_types_cons, G1, G2, P.
        repeat split; auto. lia.
    + pose proof (fix_of_raises s e H) as ->.
      right. right. split; [reflexivity|]. exists [], raw, w, s.
      cbn. rewrite Nat.add_0_r. auto.
Qed.

(** While the budget lasts, every chunk read is given to the parser, once
    and in order. *)
Lemma scan_trace_prefix (pre w : list bytes) (r : nat) :
  forallb (no_target parse) pre = true ->
  r + wrong_types parse pre < limit ->
  snd (scan parse limit r (pre ++ w)) =
  decoded pre ++ snd (scan parse limit (r + wrong_types parse pre) w).
Proof.
  revert r. induction pre as [|raw pre IH]; intros r H B.
  - cbn. rewrite Nat.add_0_r. reflexivity.
  - cbn [forallb] in H. apply andb_prop in H. destruct H as [K H].
    rewrite wrong_types_cons in B |- *.
    assert (L : r < limit) by lia.
    cbn [app]. rewrite (scan_step parse limit r raw (pre ++ w) L).
    pose proof (kind_flags parse raw) as F. unfold classify in F.
    unfold decoded. cbn [flat_map]. fold (decoded pre).
    destruct (utf8_decode raw) as [line|].
    2:{ destruct F as [F1 _]. congruence. }
    cbn [handed snd app]. f_equal.
    destruct (parse line) as [s|].
    + destruct (is_GGA s); destruct F as [F1 F2]; try congruence.
      rewrite F2 in B |- *. rewrite (IH (S r) H) by lia.
      rewrite Nat.add_succ_comm. reflexivity.
    + destruct F as [F1 F2]. rewrite F2 in B |- *. cbn [Nat.add] in B |- *.
      rewrite (IH r H) by lia. reflexivity.
Qed.

End ScanMore.

(** ** What a call consumes, hands on and raises *)

(** X1.  When [get_next_location] returns a fix, the connection is left
    just after the chunk of the GGA sentence the fix was made from: before
    that chunk the call consumed the chunks the drain read past, the line
    the drain stopped on, and chunks without a GGA sentence, fewer than a
    hundred of them well-formed.  Nothing after the GGA chunk is read. *)
Theorem fix_leaves_connection_after_gga
  (parse : parser) (conn c' : serial) (fix_ : LatLon) :
  get_next_location_st parse conn = Returned (fix_, c') ->
  get_next_location parse conn = Returned fix_ /\
  in_waiting c' = [] /\
  exists junk first pre raw s,
    wire conn = junk ++ first :: pre ++ raw :: wire c' /\
    forallb unusable junk = true /\ unusable first = false /\
    forallb (no_target parse) pre = true /\
    wrong_types parse pre < retry_limit /\
    classify parse raw = Target s /\ fix_of s = Returned fix_.
Proof.
  unfold get_next_location_st, get_next_location, get_next_location_traced.
  destruct (flush_serial conn) as [c| |] eqn:F; cbn [bind]; try discriminate.
  pose proof (acquire_scan parse retry_limit (wire c) 0) as A.
  destruct (acquire parse retry_limit 0 (wire c)) as [[ll left]| |] eqn:Q;
    cbn [bind]; try discriminate.
  cbn [fst snd]. intro H.
  assert (E : (ll, mkSerial [] left) = (fix_, c')) by congruence.
  injection E as <- <-. cbn [in_waiting wire].
  split; [rewrite <- A; reflexivity|]. split; [reflexivity|].
  destruct (flush_serial_inv conn c F) as [_ D].
  destruct (drain_inv _ _ D) as (junk & first & W & J & U).
  destruct (acquire_returned parse retry_limit _ _ _ _ Q)
    as (pre & raw & s & W' & P & B & T & V).
  exists junk, first, pre, raw, s. rewrite W, W'.
  split; [reflexivity|]. repeat split; assumption.
Qed.

Lemma fix_leaves_connection_after_gga_witness :
  get_next_location Reference.parse
    (port [line rmc_text; line rmc_text; line gga_text; line gga_far_text]) =
    Returned (mkLatLon 48.1173 11.516666666666667 (PyStr (text_of "08"))) /\
  in_waiting (port [line gga_far_text]) = [].
Proof.
  destruct (fix_leaves_connection_after_gga Reference.parse
              (port [line rmc_text; line rmc_text; line gga_text;
                     line gga_far_text])
              (port [line gga_far_text])
              (mkLatLon 48.1173 11.516666666666667 (PyStr (text_of "08"))))
    as (H1 & H2 & _); [vm_compute; reflexivity|].
  split; [exact H1|exact H2].
Defined.

(** X2.  Until the GGA sentence is met, [get_next_location] gives the
    parser every chunk it reads after the drain, malformed ones included,
    each once and in the order read, and nothing else: the lines handed over
    are the decoded chunks up to and including the GGA chunk. *)
Theorem parser_gets_each_line_once
  (parse : parser) (conn c : serial) (pre : list bytes) (raw : bytes)
  (post : list bytes) (s : sentence) :
  flush_serial conn = Returned c ->
  wire c = pre ++ raw :: post ->
  forallb (no_target parse) pre = true ->
  wrong_types parse pre < retry_limit ->
  classify parse raw = Target s ->
  snd (get_next_location_traced parse conn) = decoded (pre ++ [raw]) /\
  List.length (snd (get_next_location_traced parse conn)) = S (List.length pre).
Proof.
  intros F W P B T.
  assert (E : snd (get_next_location_traced parse conn) = decoded (pre ++ [raw])).
  { rewrite (get_next_location_after_drain parse conn c F), W.
    rewrite (scan_trace_prefix parse retry_limit pre (raw :: post) 0 P B).
    rewrite decoded_app. f_equal. cbn [Nat.add].
    rewrite (scan_step parse retry_limit _ raw post B).
    unfold classify in T. unfold decoded. cbn [flat_map].
    destruct (utf8_decode raw) as [l|]; [|discriminate].
    destruct (parse l) as [x|]; [|discriminate].
    destruct (is_GGA x); [reflexivity|discriminate]. }
  split; [exact E|]. rewrite E.
  assert (N : forall u, forallb (fun x => negb (undecodable x)) u = true ->
                        List.length (decoded u) = List.length u).
  { induction u as [|x u IH]; [reflexivity|].
    cbn [forallb]. intro H. apply andb_prop in H. destruct H as [H1 H2].
    unfold decoded. cbn [flat_map]. fold (decoded u). unfold undecodable in H1.
    destruct (utf8_decode x); [|discriminate].
    cbn [app List.length]. rewrite (IH H2). reflexivity. }
  rewrite N, length_app; [cbn; lia|].
  rewrite forallb_app. apply andb_true_intro. split.
  - rewrite forallb_forall in P |- *. intros x I. specialize (P x I).
    pose proof (kind_flags parse x) as G. unfold classify in G.
    unfold undecodable. destruct (utf8_decode x); [reflexivity|].
    destruct G as [G _]. congruence.
  - cbn [forallb]. unfold classify in T. unfold undecodable.
    destruct (utf8_decode raw); [reflexivity|discriminate].
Qed.

Lemma parser_gets_each_line_once_witness :
  snd (get_next_location_traced Reference.parse
         (port [line rmc_text; line rmc_text; bytes_of rmc_elided; line gga_text]))
  = decoded ([line rmc_text; bytes_of rmc_elided] ++ [line gga_text]).
Proof.
  apply (parser_gets_each_line_once Reference.parse
           (port [line rmc_text; line rmc_text; bytes_of rmc_elided; line gga_text])
           (port [line rmc_text; bytes_of rmc_elided; line gga_text])
           [line rmc_text; bytes_of rmc_elided] (line gga_text) []
           (mkSentence (text_of "GGA") (text_of "4807.038") (text_of "N")
              (text_of "01131.000") (text_of "E") (PyStr (text_of "08"))));
    try (vm_compute; reflexivity).
  unfold retry_limit. vm_compute. lia.
Defined.

(** X3.  What each exception out of [get_next_location] tells about the
    stream.  [UnicodeDecodeError] leaves it only when some chunk of the
    stream does not decode, [TypeError] only when the stream holds at least
    a hundred well-formed sentences of another type, [ValueError] only when
    the GGA sentence it reached has a coordinate the conversion refuses. *)
Theorem why_get_next_location_raises (parse : parser) (conn : serial) :
  (get_next_location parse conn = Raised UnicodeDecodeError ->
   exists raw, In raw (wire conn) /\ utf8_decode raw = None) /\
  (get_next_location parse conn = Raised TypeError ->
   retry_limit <= wrong_types parse (wire conn)) /\
  (get_next_location parse conn = Raised ValueError ->
   exists s, reaches parse conn s /\ fix_of s = Raised ValueError).
Proof.
  assert (K : forall e, get_next_location parse conn = Raised e ->
    exists c junk first,
      flush_serial conn = Returned c /\
      wire conn = junk ++ first :: wire c /\
      fst (scan parse retry_limit 0 (wire c)) = Raised e).
  { unfold get_next_location, get_next_location_traced. intro e.
    destruct (flush_serial conn) as [c|x|] eqn:F; cbn [fst]; try discriminate.
    2:{ intros _. exact (False_ind _ (flush_serial_no_raise conn x F)). }
    intro H. destruct (flush_serial_inv conn c F) as [_ D].
    destruct (drain_inv _ _ D) as (junk & first & W & _ & _).
    exists c, junk, first. auto. }
  split; [|split]; intro H;
    destruct (K _ H) as (c & junk & first & F & W & R);
    destruct (scan_raised parse retry_limit _ _ _ R)
      as [(E & raw & I & N)|[(E & B)|(E & pre & raw & post & s & W' & P & B & T & V)]];
    try discriminate E.
  - exists raw. split; [|exact N].
    rewrite W. apply in_or_app. right. right. exact I.
  - rewrite W, wrong_types_app, wrong_types_cons. cbn [Nat.add] in B. lia.
  - exists s. split; [|exact V].
    exists c, pre, raw, post. cbn [Nat.add] in B. auto.
Qed.

Lemma why_get_next_location_raises_witness :
  get_next_location Reference.parse bad_lat = Raised ValueError /\
  exists s, reaches Reference.parse bad_lat s /\ fix_of s = Raised ValueError.
Proof.
  split; [vm_compute; reflexivity|].
  apply (proj2 (proj2 (why_get_next_location_raises Reference.parse bad_lat))).
  vm_compute. reflexivity.
Defined.

Section Ascii.

(** ASCII bytes decode to themselves. *)
Lemma utf8_decode_ascii (raw : bytes) :
  is_ascii raw = true -> utf8_decode raw = Some (map code raw).
Proof.
  induction raw as [|b raw IH]; [reflexivity|].
  cbn [is_ascii forallb]. intro H. apply andb_prop in H. destruct H as [H1 H2].
  cbn [utf8_decode map]. rewrite H1. fold (is_ascii raw) in H2.
  rewrite (IH H2). reflexivity.
Qed.

Lemma drain_print_suffix (w rest : list bytes) (x : bytes) :
  drain_print w = Some rest -> In x rest -> In x w.
Proof.
  induction w as [|raw w IH]; cbn [drain_print]; [discriminate|].
  destruct (utf8_decode raw).
  - intros H I. injection H as <-. right. exact I.
  - intros H I. right. exact (IH H I).
Qed.

Lemma print_loop_decodes (w : list bytes) (e : exn) :
  (forall raw, In raw w -> undecodable raw = false) ->
  fst (print_loop w) <> Raised e.
Proof.
  induction w as [|raw w IH]; intro A; cbn [print_loop fst]; [discriminate|].
  pose proof (A raw (or_introl eq_refl)) as D. unfold undecodable in D.
  destruct (utf8_decode raw) as [text|]; [|discriminate].
  assert (IH' : fst (print_loop w) <> Raised e).
  { apply IH. intros x I. apply A. right. exact I. }
  destruct (truthy (strip text)); exact IH'.
Qed.

End Ascii.

(** X4.  On a stream of ASCII bytes, which is what an NMEA receiver
    sends, no read fails to decode: [get_next_location] never ends with
    [UnicodeDecodeError], print-gps-data never stops on an exception, and
    the parser gets each chunk character for character. *)
Theorem ascii_stream_never_fails_to_decode (parse : parser) (conn : serial) :
  (forall raw, In raw (wire conn) -> is_ascii raw = true) ->
  get_next_location parse conn <> Raised UnicodeDecodeError /\
  (forall e, fst (print_gps_data conn) <> Raised e) /\
  (forall line, In line (snd (get_next_location_traced parse conn)) ->
     exists raw, In raw (wire conn) /\ line = map code raw).
Proof.
  intro A. split; [|split].
  - intro H.
    assert (R : get_next_location parse conn = Raised UnicodeDecodeError -> False).
    { unfold get_next_location, get_next_location_traced.
      destruct (flush_serial conn) as [c|x|] eqn:F; cbn [fst]; try discriminate.
      2:{ intros _. exact (flush_serial_no_raise conn x F). }
      intro K. destruct (flush_serial_inv conn c F) as [_ D].
      destruct (drain_inv _ _ D) as (junk & first & W & _ & _).
      destruct (scan_raised parse retry_limit _ _ _ K)
        as [(_ & raw & I & N)|[(E & _)|(E & _)]]; try discriminate.
      assert (I' : In raw (wire conn)).
      { rewrite W. apply in_or_app. right. right. exact I. }
      rewrite (utf8_decode_ascii raw (A raw I')) in N. discriminate. }
    exact (R H).
  - intro e. unfold print_gps_data.
    destruct (flush_serial_print conn) as [c|x|] eqn:F; cbn [fst];
      try discriminate.
    2:{ intros _. exact (flush_serial_print_no_raise conn x F). }
    apply print_loop_decodes. intros raw I.
    unfold flush_serial_print in F. cbn [reset_input_buffer wire] in F.
    destruct (drain_print (wire conn)) as [rest|] eqn:D; [|discriminate].
    injection F as <-. cbn [wire] in I.
    unfold undecodable.
    rewrite (utf8_decode_ascii raw (A raw (drain_print_suffix _ _ _ D I))).
    reflexivity.
  - intros line H.
    unfold get_next_location_traced in H.
    destruct (flush_serial conn) as [c|x|] eqn:F; try destruct H.
    destruct (flush_serial_inv conn c F) as [_ D].
    destruct (drain_inv _ _ D) as (junk & first & W & _ & _).
    destruct (scan_handed parse retry_limit _ _ _ H) as (raw & I & E).
    assert (I' : In raw (wire conn)).
    { rewrite W. apply in_or_app. right. right. exact I. }
    exists raw. split; [exact I'|].
    rewrite (utf8_decode_ascii raw (A raw I')) in E. congruence.
Qed.

Lemma ascii_stream_never_fails_to_decode_witness :
  is_ascii (line gga_text) = true /\
  get_next_location Reference.parse two_lines <> Raised UnicodeDecodeError.
Proof.
  split; [vm_compute; reflexivity|].
  apply (ascii_stream_never_fails_to_decode Reference.parse two_lines).
  intros raw [<-|[<-|[]]]; vm_compute; reflexivity.
Defined.

(** X5.  A GGA sentence whose latitude or longitude the conversion
    refuses is not skipped and not retried: once the loop reaches it the call
    ends with the conversion's exception, whatever follows on the wire.  The
    latitude is converted first. *)
Theorem unconvertible_coordinate_ends_the_call
  (parse : parser) (conn : serial) (s : sentence) (e : exn) :
  reaches parse conn s ->
  dm_to_sd (s_lat s) = Raised e \/
  ((exists a, dm_to_sd (s_lat s) = Returned a) /\ dm_to_sd (s_lon s) = Raised e) ->
  get_next_location parse conn = Raised e.
Proof.
  intros R H. rewrite (reaches_fix parse conn s R). unfold fix_of.
  destruct H as [A|[[a A] B]]; rewrite A; cbn [bind]; [reflexivity|].
  rewrite B. reflexivity.
Qed.

Lemma unconvertible_coordinate_ends_the_call_witness :
  get_next_location Reference.parse
    (port [line rmc_text; line gga_bad_lat_text; line gga_text]) =
  Raised ValueError.
Proof.
  apply (unconvertible_coordinate_ends_the_call Reference.parse _
           (mkSentence (text_of "GGA") (text_of "north") (text_of "N")
              (text_of "01131.000") (text_of "E") (PyStr (text_of "08")))).
  - exists (port [line gga_bad_lat_text; line gga_text]), [],
      (line gga_bad_lat_text), [line gga_text].
    repeat split; try (vm_compute; reflexivity).
    unfold retry_limit. vm_compute. lia.
  - left. vm_compute. reflexivity.
Defined.

(** X6.  The validity test of the polling loops, applied to a fix that
    [get_next_location] returned, fails only when a southern latitude or a
    western longitude has a magnitude of 999 degrees or more.  A fix in the
    northern and eastern hemispheres always passes, and the test never
    stands for "no fix": that case does not come back as a value. *)
Theorem returned_fix_passes_validity_test
  (parse : parser) (conn : serial) (fix_ : LatLon) :
  get_next_location parse conn = Returned fix_ ->
  exists s a b,
    reaches parse conn s /\
    dm_to_sd (s_lat s) = Returned a /\ dm_to_sd (s_lon s) = Returned b /\
    is_valid fix_ =
      (if southern s then (a <? 999)%float else true) &&
      (if western s then (b <? 999)%float else true) /\
    (southern s = false -> western s = false ->
     report fix_ <> [] /\ forward fix_ <> []).
Proof.
  intro H. destruct (returned_reaches parse conn fix_ H) as (s & R & V).
  destruct (fix_of_inv s fix_ V) as (a & b & A & B & ->).
  pose proof (is_valid_signed (southern s) (western s) a b (num_sats s)
                (dm_to_sd_nonneg _ _ A) (dm_to_sd_nonneg _ _ B)) as E.
  exists s, a, b. split; [exact R|]. split; [exact A|]. split; [exact B|].
  split; [exact E|].
  intros S W. unfold report, forward. rewrite E, S, W. cbn.
  split; discriminate.
Qed.

Lemma returned_fix_passes_validity_test_witness :
  exists s a b,
    reaches Reference.parse far s /\
    dm_to_sd (s_lat s) = Returned a /\ dm_to_sd (s_lon s) = Returned b /\
    is_valid (mkLatLon (89 + 99.999 / 60) (180 + 99 / 60) (PyStr (text_of "08"))) =
      (if southern s then (a <? 999)%float else true) &&
      (if western s then (b <? 999)%float else true) /\
    (southern s = false -> western s = false ->
     report (mkLatLon (89 + 99.999 / 60) (180 + 99 / 60) (PyStr (text_of "08")))
       <> [] /\
     forward (mkLatLon (89 + 99.999 / 60) (180 + 99 / 60) (PyStr (text_of "08")))
       <> []).
Proof.
  apply (returned_fix_passes_validity_test Reference.parse far).
  vm_compute. reflexivity.
Defined.

(** X7.  A GGA sentence with empty coordinate fields, as a receiver sends
    before it has a fix, is not treated as "no fix": the conversion gives 0.0
    for an empty field, so the call returns latitude 0 and longitude 0, and
    that fix passes the validity test and is printed or sent. *)
Theorem empty_coordinates_give_origin
  (parse : parser) (conn : serial) (s : sentence) :
  reaches parse conn s ->
  s_lat s = [] -> s_lon s = [] ->
  let fix_ := mkLatLon (signed (southern s) 0) (signed (western s) 0)
                (num_sats s) in
  get_next_location parse conn = Returned fix_ /\
  is_valid fix_ = true /\
  forward fix_ = [Sent (message_json fix_)].
Proof.
  intros R A B fix_.
  assert (V : is_valid fix_ = true).
  { unfold fix_. rewrite is_valid_signed by reflexivity.
    destruct (southern s), (western s); reflexivity. }
  split; [|split; [exact V|]].
  - rewrite (reaches_fix parse conn s R).
    apply fix_of_value; [rewrite A|rewrite B]; reflexivity.
  - unfold forward. rewrite V. reflexivity.
Qed.

Lemma empty_coordinates_give_origin_witness :
  get_next_location Reference.parse no_fix =
    Returned (mkLatLon 0 0 (PyStr (text_of "00"))) /\
  is_valid (mkLatLon 0 0 (PyStr (text_of "00"))) = true.
Proof.
  pose proof (empty_coordinates_give_origin Reference.parse no_fix
                (mkSentence (text_of "GGA") [] [] [] [] (PyStr (text_of "00"))))
    as H.
  cbv zeta in H. destruct H as (H1 & H2 & _); try reflexivity.
  - exists (port [line gga_no_fix_text]), [], (line gga_no_fix_text), [].
    repeat split; try (vm_compute; reflexivity).
    unfold retry_limit. vm_compute. lia.
  - split; [exact H1|exact H2].
Defined.

(** ** print-gps-data *)

Section PrintMore.

Lemma print_loop_app (good rest : list bytes) :
  forallb (fun raw => negb (undecodable raw)) good = true ->
  print_loop (good ++ rest) =
  (fst (print_loop rest),
   filter truthy (map strip (decoded good)) ++ snd (print_loop rest)).
Proof.
  induction good as [|raw good IH]; intro H.
  - cbn. destruct (print_loop rest). reflexivity.
  - cbn [forallb] in H. apply andb_prop in H. destruct H as [D H].
    unfold undecodable in D. cbn [app print_loop].
    unfold decoded. cbn [flat_map]. fold (decoded good).
    destruct (utf8_decode raw) as [text|]; [|discriminate].
    cbn [app map filter]. rewrite (IH H).
    destruct (truthy (strip text)); reflexivity.
Qed.

End PrintMore.

(** X8.  print-gps-data never prints the first chunk that decodes: the
    drain consumes it, together with what was buffered and the undecodable
    chunks before it.  From the next chunk on it prints, in order, the
    stripped text of every chunk that decodes to something other than white
    space, and the first chunk that does not decode ends the program with
    [UnicodeDecodeError]: after the drain nothing catches it. *)
Theorem print_gps_data_output
  (stale noise : list bytes) (chunk : bytes) (good : list bytes) :
  forallb undecodable noise = true ->
  undecodable chunk = false ->
  forallb (fun raw => negb (undecodable raw)) good = true ->
  print_gps_data (mkSerial stale (noise ++ chunk :: good)) =
    (Blocked, filter truthy (map strip (decoded good))) /\
  (forall torn_chunk rest,
     undecodable torn_chunk = true ->
     print_gps_data (mkSerial stale (noise ++ chunk :: good ++ torn_chunk :: rest)) =
       (Raised UnicodeDecodeError, filter truthy (map strip (decoded good)))).
Proof.
  intros N C G.
  assert (F : forall rest,
             print_gps_data (mkSerial stale (noise ++ chunk :: rest)) =
             print_loop rest).
  { intro rest. unfold print_gps_data, flush_serial_print.
    cbn [reset_input_buffer wire].
    rewrite (drain_print_skips noise (chunk :: rest) N),
      (drain_print_stops chunk rest C). reflexivity. }
  split.
  - rewrite F, <- (app_nil_r good) at 1. rewrite (print_loop_app good [] G).
    cbn [print_loop fst snd]. rewrite app_nil_r. reflexivity.
  - intros t rest T. rewrite F, (print_loop_app good (t :: rest) G).
    cbn [print_loop]. unfold undecodable in T.
    destruct (utf8_decode t); [discriminate|].
    cbn [fst snd]. rewrite app_nil_r. reflexivity.
Qed.

Lemma print_gps_data_output_witness :
  print_gps_data (mkSerial [line gga_far_text]
                    ([torn] ++ line rmc_text :: [crlf; line gga_text])) =
  (Blocked, filter truthy (map strip (decoded [crlf; line gga_text]))).
Proof.
  apply (print_gps_data_output [line gga_far_text] [torn] (line rmc_text)
           [crlf; line gga_text]); vm_compute; reflexivity.
Defined.

(** ** Blank chunks *)

Section Blank.

Lemma lstrip_nil_iff (s : str) : lstrip s = [] <-> forallb is_space s = true.
Proof.
  induction s as [|c s IH]; cbn [lstrip forallb]; [tauto|].
  destruct (is_space c); cbn [andb]; [exact IH|].
  split; discriminate.
Qed.

Lemma forallb_rev {A : Type} (f : A -> bool) (l : list A) :
  forallb f (rev l) = forallb f l.
Proof.
  induction l as [|x l IH]; [reflexivity|].
  cbn [rev forallb]. rewrite forallb_app, IH. cbn [forallb].
  rewrite andb_true_r. apply andb_comm.
Qed.

(** [strip] gives the empty string exactly for white space. *)
Lemma strip_nil_iff (s : str) : strip s = [] <-> forallb is_space s = true.
Proof.
  unfold strip, rstrip. split.
  - intro H. apply (f_equal (@rev N)) in H. rewrite rev_involutive in H.
    cbn [rev] in H. apply lstrip_nil_iff in H. rewrite forallb_rev in H.
    apply lstrip_nil_iff.
    destruct (lstrip s) as [|c u] eqn:E; [reflexivity|].
    pose proof (lstrip_head s c) as K. rewrite E in K.
    specialize (K eq_refl). cbn [forallb] in H. rewrite K in H. discriminate.
  - intro H. apply lstrip_nil_iff in H. rewrite H. reflexivity.
Qed.

Lemma truthy_strip (s : str) : truthy (strip s) = negb (forallb is_space s).
Proof.
  destruct (forallb is_space s) eqn:E.
  - apply strip_nil_iff in E. rewrite E. reflexivity.
  - destruct (strip s) eqn:K; [|reflexivity].
    apply strip_nil_iff in K. congruence.
Qed.

End Blank.

(** X9.  A chunk that decodes to white space only, the empty read of a
    timeout included, is read past by [flush_serial] of decode-gps-data and
    send-gps-data exactly as an undecodable chunk is, while [flush_serial] of
    print-gps-data stops on it.  In general the first skips the chunks that
    do not decode or hold nothing but white space, and no others. *)
Theorem blank_chunk_in_the_drains
  (stale : list bytes) (raw : bytes) (rest : list bytes) (text : str) :
  utf8_decode raw = Some text ->
  forallb is_space text = true ->
  flush_serial (mkSerial stale (raw :: rest)) = flush_serial (mkSerial stale rest) /\
  flush_serial_print (mkSerial stale (raw :: rest)) = Returned (mkSerial [] rest) /\
  (forall chunk,
     unusable chunk =
     match utf8_decode chunk with
     | None => true
     | Some t => forallb is_space t
     end).
Proof.
  intros D W. split; [|split].
  - unfold flush_serial. cbn [reset_input_buffer wire drain].
    rewrite D, truthy_strip, W. reflexivity.
  - unfold flush_serial_print. cbn [reset_input_buffer wire drain_print].
    rewrite D. reflexivity.
  - intro chunk. unfold unusable.
    destruct (utf8_decode chunk) as [t|]; [|reflexivity].
    rewrite truthy_strip, negb_involutive. reflexivity.
Qed.

Lemma blank_chunk_in_the_drains_witness :
  flush_serial (mkSerial [] ([] :: [line rmc_text; line gga_text])) =
    flush_serial (mkSerial [] [line rmc_text; line gga_text]) /\
  flush_serial_print (mkSerial [] ([] :: [line rmc_text; line gga_text])) =
    Returned (mkSerial [] [line rmc_text; line gga_text]).
Proof.
  destruct (blank_chunk_in_the_drains [] [] [line rmc_text; line gga_text] [])
    as (H1 & H2 & _); try reflexivity.
  split; [exact H1|exact H2].
Defined.

(** ** The storage function *)

(** X10.  [main] of gps_data_trigger stores a record exactly for an event
    that carries the device id and whose body is an object with an object
    under ["gps"] holding ["num_satellites"], ["lon"] and ["lat"].  The
    record then has the device id as animal id, the satellites value as it
    came, and a Point whose coordinates are the ["lon"] value followed by
    the ["lat"] value; the values are copied whatever their JSON type, and
    other keys of the body play no part. *)
Theorem storage_record_iff (event : EventHubEvent) (record : json) :
  main event = Returned record <->
  exists device members gps n lo la,
    lookup "connection-device-id" (iothub_metadata event) = Some device /\
    json_body event = JObj members /\
    lookup "gps" members = Some (JObj gps) /\
    lookup "num_satellites" gps = Some n /\
    lookup "lon" gps = Some lo /\ lookup "lat" gps = Some la /\
    record =
      JObj [("animalid"%string, JStr device);
            ("num_satellites"%string, n);
            ("location"%string,
             JObj [("type"%string, JStr (text_of "Point"));
                   ("coordinates"%string, JArr [lo; la])])].
Proof.
  unfold main, metadata, getitem. split.
  - destruct (lookup "connection-device-id" (iothub_metadata event))
      as [device|] eqn:M; cbn [bind]; [|discriminate].
    destruct (json_body event) as [| | | |members] eqn:B; cbn [bind];
      try discriminate.
    destruct (lookup "gps" members) as [[| | | |gps]|] eqn:G; cbn [bind];
      try discriminate.
    destruct (lookup "num_satellites" gps) as [n|] eqn:N; cbn [bind];
      [|discriminate].
    destruct (lookup "lon" gps) as [lo|] eqn:LO; cbn [bind]; [|discriminate].
    destruct (lookup "lat" gps) as [la|] eqn:LA; cbn [bind]; [|discriminate].
    intro H. injection H as <-.
    exists device, members, gps, n, lo, la. repeat split; assumption.
  - intros (device & members & gps & n & lo & la & M & B & G & N & LO & LA & ->).
    rewrite M, B. cbn [bind]. rewrite G. cbn [bind]. rewrite N, LO, LA.
    reflexivity.
Qed.

Lemma storage_record_iff_witness :
  main (mkEvent
          (JObj [("extra"%string, JInt 1);
                 ("gps"%string,
                  JObj [("lat"%string, JStr (text_of "north"));
                        ("lon"%string, JFloat 11.5);
                        ("num_satellites"%string, JInt 4)])])
          [("connection-device-id"%string, text_of "gps-sensor")]) =
  Returned
    (JObj [("animalid"%string, JStr (text_of "gps-sensor"));
           ("num_satellites"%string, JInt 4);
           ("location"%string,
            JObj [("type"%string, JStr (text_of "Point"));
                  ("coordinates"%string,
                   JArr [JFloat 11.5; JStr (text_of "north")])])]).
Proof.
  apply (proj2 (storage_record_iff _ _)).
  exists (text_of "gps-sensor"),
    [("extra"%string, JInt 1);
     ("gps"%string,
      JObj [("lat"%string, JStr (text_of "north"));
            ("lon"%string, JFloat 11.5);
            ("num_satellites"%string, JInt 4)])],
    [("lat"%string, JStr (text_of "north"));
     ("lon"%string, JFloat 11.5);
     ("num_satellites"%string, JInt 4)],
    (JInt 4), (JFloat 11.5), (JStr (text_of "north")).
  repeat split; reflexivity.
Defined.

(** X11.  How [main] of gps_data_trigger fails, in the order of its
    lines.  A body that is not UTF-8 raises [UnicodeDecodeError] (line 18),
    and what [json.loads] raises on the text leaves [main] (line 23), both
    whatever the metadata holds.  Once the body is loaded, metadata without
    the device id raises [KeyError] whatever the body holds.  With the id, a
    body that is not an object, or whose ["gps"] is not an object, raises
    [TypeError], and a missing ["gps"], ["num_satellites"], ["lon"] or
    ["lat"] raises [KeyError]. *)
Theorem storage_failures
  (loads : str -> outcome json) (body : bytes) (meta : list (string * str)) :
  (utf8_decode body = None ->
   main_from_bytes loads body meta = Raised UnicodeDecodeError) /\
  (forall text e,
     utf8_decode body = Some text -> loads text = Raised e ->
     main_from_bytes loads body meta = Raised e) /\
  (forall text j,
     utf8_decode body = Some text -> loads text = Returned j ->
     main_from_bytes loads body meta = main (mkEvent j meta) /\
     (lookup "connection-device-id" meta = None ->
      main_from_bytes loads body meta = Raised KeyError) /\
     (forall device,
        lookup "connection-device-id" meta = Some device ->
        ((forall members, j <> JObj members) ->
         main_from_bytes loads body meta = Raised TypeError) /\
        (forall members,
           j = JObj members -> lookup "gps" members = None ->
           main_from_bytes loads body meta = Raised KeyError) /\
        (forall members g,
           j = JObj members -> lookup "gps" members = Some g ->
           (forall gps, g <> JObj gps) ->
           main_from_bytes loads body meta = Raised TypeError) /\
        (forall members gps,
           j = JObj members -> lookup "gps" members = Some (JObj gps) ->
           lookup "num_satellites" gps = None \/ lookup "lon" gps = None \/
           lookup "lat" gps = None ->
           main_from_bytes loads body meta = Raised KeyError))).
Proof.
  unfold main_from_bytes.
  split; [intros ->; reflexivity|].
  split; [intros text e -> ->; reflexivity|].
  intros text j -> ->. cbn [bind].
  split; [reflexivity|].
  unfold main, metadata, getitem. cbn [json_body iothub_metadata].
  split; [intros ->; reflexivity|].
  intros device ->. cbn [bind].
  split.
  { intro N. destruct j as [| | | |members]; try reflexivity.
    exfalso. exact (N members eq_refl). }
  split; [intros members -> H; rewrite H; reflexivity|].
  split.
  { intros members g -> H N. rewrite H. cbn [bind].
    destruct g as [| | | |gps]; try reflexivity.
    exfalso. exact (N gps eq_refl). }
  intros members gps -> H K. rewrite H. cbn [bind].
  destruct (lookup "num_satellites" gps) as [n|]; cbn [bind]; [|reflexivity].
  destruct (lookup "lon" gps) as [lo|]; cbn [bind]; [|reflexivity].
  destruct (lookup "lat" gps) as [la|]; cbn [bind]; [|reflexivity].
  destruct K as [K|[K|K]]; discriminate.
Qed.

Lemma storage_failures_witness :
  main_from_bytes (fun _ => Returned (JArr [])) Script.torn
    [("connection-device-id"%string, text_of "gps-sensor")] =
    Raised UnicodeDecodeError /\
  main_from_bytes (fun _ => Raised ValueError) (bytes_of "{")
    [("connection-device-id"%string, text_of "gps-sensor")] =
    Raised ValueError /\
  main_from_bytes (fun _ => Returned (JArr [])) (bytes_of "[]") [] =
    Raised KeyError /\
  main_from_bytes (fun _ => Returned (JArr [])) (bytes_of "[]")
    [("connection-device-id"%string, text_of "gps-sensor")] =
    Raised TypeError.
Proof.
  split; [|split; [|split]].
  - apply (proj1 (storage_failures (fun _ => Returned (JArr [])) Script.torn
                    [("connection-device-id"%string, text_of "gps-sensor")])).
    reflexivity.
  - apply (proj1 (proj2 (storage_failures (fun _ => Raised ValueError)
                    (bytes_of "{")
                    [("connection-device-id"%string, text_of "gps-sensor")]))
             (text_of "{")); reflexivity.
  - apply (proj1 (proj2 (proj2 (proj2 (storage_failures
                    (fun _ => Returned (JArr [])) (bytes_of "[]") []))
             (text_of "[]") (JArr []) eq_refl eq_refl))).
    reflexivity.
  - apply (proj1 (proj2 (proj2 (proj2 (proj2 (storage_failures
                    (fun _ => Returned (JArr [])) (bytes_of "[]")
                    [("connection-device-id"%string, text_of "gps-sensor")]))
             (text_of "[]") (JArr []) eq_refl eq_refl))
             (text_of "gps-sensor") eq_refl)).
    discriminate.
Defined.

(** ** The polling loops *)

Section Polling.

Variable parse : parser.
Variable act : LatLon -> list action.

Lemma get_next_location_st_inv (c c' : serial) (fix_ : LatLon) :
  get_next_location_st parse c = Returned (fix_, c') ->
  exists junk first pre raw s,
    wire c = junk ++ first :: pre ++ raw :: wire c' /\
    classify parse raw = Target s /\ fix_of s = Returned fix_.
Proof.
  unfold get_next_location_st.
  destruct (flush_serial c) as [c1| |] eqn:F; cbn [bind]; try discriminate.
  destruct (acquire parse retry_limit 0 (wire c1)) as [[ll left]| |] eqn:Q;
    cbn [bind]; try discriminate.
  cbn [fst snd]. intro H.
  assert (E : (ll, mkSerial [] left) = (fix_, c')) by congruence.
  injection E as <- <-. cbn [wire].
  destruct (flush_serial_inv c c1 F) as [_ D].
  destruct (drain_inv _ _ D) as (junk & first & W & _ & _).
  destruct (acquire_returned parse retry_limit _ _ _ _ Q)
    as (pre & raw & s & W' & _ & _ & T & V).
  exists junk, first, pre, raw, s. rewrite W, W'. auto.
Qed.

Lemma get_next_location_st_shrinks (c c' : serial) (fix_ : LatLon) :
  get_next_location_st parse c = Returned (fix_, c') ->
  List.length (wire c') + 2 <= List.length (wire c).
Proof.
  intro H. destruct (get_next_location_st_inv c c' fix_ H)
    as (junk & first & pre & raw & s & W & _).
  rewrite W, length_app. cbn [List.length]. rewrite length_app.
  cbn [List.length]. lia.
Qed.

(** With more fuel the loop does the same. *)
Lemma poll_loop_fuel (fuel fuel' : nat) (c : serial) (r : ending * list action) :
  poll_loop act parse fuel c = Some r -> fuel <= fuel' ->
  poll_loop act parse fuel' c = Some r.
Proof.
  revert fuel' c r. induction fuel as [|f IH]; intros fuel' c r H L;
    [discriminate|].
  destruct fuel' as [|f']; [lia|]. cbn [poll_loop] in H |- *.
  destruct (get_next_location_st parse c) as [[ll c']| |]; try exact H.
  destruct (poll_loop act parse f c') as [r'|] eqn:P; [|discriminate].
  rewrite (IH f' c' r' P) by lia. exact H.
Qed.

(** Every turn that ends takes at least two chunks off the wire, so on a
    script the loop stops. *)
Lemma poll_loop_stops (fuel : nat) (c : serial) :
  (forall lat_lon, List.length (act lat_lon) <= 1) ->
  List.length (wire c) < fuel ->
  exists e acts,
    poll_loop act parse fuel c = Some (e, acts) /\
    2 * List.length acts <= List.length (wire c).
Proof.
  intro A. revert c. induction fuel as [|f IH]; intros c L; [lia|].
  cbn [poll_loop].
  destruct (get_next_location_st parse c) as [[ll c']|x|] eqn:G.
  - pose proof (get_next_location_st_shrinks c c' ll G) as S'.
    destruct (IH c') as (e & acts & P & B); [lia|].
    exists e, (act ll ++ acts). rewrite P. cbn [option_map fst snd].
    split; [reflexivity|].
    rewrite length_app. specialize (A ll). lia.
  - exists (Crashed x), []. split; [reflexivity|]. cbn; lia.
  - exists Waiting, []. split; [reflexivity|]. cbn; lia.
Qed.

End Polling.

(** X12.  Both [main] functions drain once before the loop, and every
    call of [get_next_location] drains again: the first two lines that
    decode to something other than white space are never parsed, GGA
    sentences or not.  The first fix acted on is the one of the first GGA
    sentence after them. *)
Theorem startup_discards_two_lines
  (act : LatLon -> list action) (parse : parser) (fuel : nat)
  (stale junk1 junk2 pre post : list bytes) (line1 line2 raw : bytes)
  (s : sentence) (fix_ : LatLon) :
  forallb unusable junk1 = true -> unusable line1 = false ->
  forallb unusable junk2 = true -> unusable line2 = false ->
  forallb (no_target parse) pre = true ->
  wrong_types parse pre < retry_limit ->
  classify parse raw = Target s -> fix_of s = Returned fix_ ->
  main_loop act parse (S fuel)
    (mkSerial stale (junk1 ++ line1 :: junk2 ++ line2 :: pre ++ raw :: post)) =
  option_map (fun r => (fst r, act fix_ ++ snd r))
    (poll_loop act parse fuel (mkSerial [] post)).
Proof.
  intros J1 U1 J2 U2 P B T V.
  unfold main_loop, flush_serial. cbn [reset_input_buffer wire].
  rewrite (drain_skips junk1 _ J1), (drain_stops line1 _ U1).
  cbn [poll_loop]. unfold get_next_location_st, flush_serial.
  cbn [reset_input_buffer wire].
  rewrite (drain_skips junk2 _ J2), (drain_stops line2 _ U2). cbn [bind wire].
  rewrite (acquire_prefix parse retry_limit pre (raw :: post) 0 P).
  rewrite acquire_kind by exact B. rewrite T, V. reflexivity.
Qed.

Lemma startup_discards_two_lines_witness :
  main_decode Reference.parse 2 (port (repeat (line gga_text) 4)) =
  Some (Waiting,
        [Printed 48.1173 11.516666666666667 (PyStr (text_of "08"))]).
Proof.
  change (main_decode Reference.parse 2 (port (repeat (line gga_text) 4)))
    with (main_loop report Reference.parse 2
            (mkSerial []
               ([] ++ line gga_text :: [] ++ line gga_text
                   :: [] ++ line gga_text :: [line gga_text]))).
  rewrite (startup_discards_two_lines report Reference.parse 1 [] [] [] []
             [line gga_text] (line gga_text) (line gga_text)
             (line gga_text)
             (mkSentence (text_of "GGA") (text_of "4807.038") (text_of "N")
                (text_of "01131.000") (text_of "E") (PyStr (text_of "08")))
             (mkLatLon 48.1173 11.516666666666667 (PyStr (text_of "08"))));
    try (vm_compute; reflexivity).
  unfold retry_limit. vm_compute. lia.
Defined.

(** X13.  On a script both [main] loops stop: with fuel beyond the
    length of the script the run ends, in a read that waits for ever or on
    an exception out of [get_next_location], which nothing in [main]
    catches, and more fuel changes nothing.  Each fix acted on costs at
    least two chunks, and the drain before the loop one more, so the number
    of fixes printed or sent is at most half the number of chunks after the
    first. *)
Theorem polling_loop_stops_on_a_script
  (act : LatLon -> list action) (parse : parser) (fuel : nat) (conn : serial) :
  (forall lat_lon, List.length (act lat_lon) <= 1) ->
  List.length (wire conn) < fuel ->
  exists e acts,
    main_loop act parse fuel conn = Some (e, acts) /\
    (forall fuel', fuel <= fuel' ->
       main_loop act parse fuel' conn = Some (e, acts)) /\
    2 * List.length acts <= List.length (wire conn) - 1.
Proof.
  intros A L. unfold main_loop.
  destruct (flush_serial conn) as [c|x|] eqn:F.
  - destruct (flush_serial_inv conn c F) as [_ D].
    destruct (drain_inv _ _ D) as (junk & first & W & _ & _).
    assert (S' : List.length (wire c) + 1 <= List.length (wire conn)).
    { rewrite W, length_app. cbn [List.length]. lia. }
    destruct (poll_loop_stops parse act fuel c A) as (e & acts & P & B);
      [lia|].
    exists e, acts. split; [exact P|]. split; [|lia].
    intros fuel' K. exact (poll_loop_fuel parse act fuel fuel' c _ P K).
  - exfalso. exact (flush_serial_no_raise conn x F).
  - exists Waiting, []. split; [reflexivity|]. split; [reflexivity|].
    cbn; lia.
Qed.

Lemma polling_loop_stops_on_a_script_witness :
  exists e acts,
    main_send Reference.parse 6 five_gga = Some (e, acts) /\
    (forall fuel', 6 <= fuel' ->
       main_send Reference.parse fuel' five_gga = Some (e, acts)) /\
    2 * List.length acts <= List.length (wire five_gga) - 1.
Proof.
  apply (polling_loop_stops_on_a_script forward Reference.parse 6 five_gga).
  - intro lat_lon. unfold forward. destruct (is_valid lat_lon); cbn; lia.
  - vm_compute. lia.
Defined.

Section GoodStreams.

Variable parse : parser.
Variable act : LatLon -> list action.
Hypothesis act_valid :
  forall lat_lon, is_valid lat_lon = true -> List.length (act lat_lon) = 1.

Lemma poll_loop_good (fuel : nat) (w : list bytes) :
  forallb (good_fix parse) w = true ->
  List.length w < fuel ->
  exists acts,
    poll_loop act parse fuel (mkSerial [] w) = Some (Waiting, acts) /\
    List.length acts = List.length w / 2.
Proof.
  revert w. induction fuel as [|f IH]; intros w G L; [lia|].
  cbn [poll_loop]. unfold get_next_location_st, flush_serial.
  cbn [reset_input_buffer wire].
  destruct w as [|x [|y w]].
  - exists []. split; reflexivity.
  - cbn [forallb] in G. apply andb_prop in G. destruct G as [Gx _].
    unfold good_fix in Gx. apply andb_prop in Gx. destruct Gx as [Ux _].
    apply negb_true_iff in Ux. rewrite (drain_stops x [] Ux). cbn [bind wire].
    rewrite acquire_nil by (unfold retry_limit; lia).
    exists []. split; reflexivity.
  - cbn [forallb] in G. apply andb_prop in G. destruct G as [Gx G].
    apply andb_prop in G. destruct G as [Gy G].
    unfold good_fix in Gx, Gy.
    apply andb_prop in Gx. destruct Gx as [Ux _]. apply negb_true_iff in Ux.
    apply andb_prop in Gy. destruct Gy as [_ Ty].
    rewrite (drain_stops x (y :: w) Ux). cbn [bind wire].
    rewrite acquire_kind by (unfold retry_limit; lia).
    destruct (classify parse y) as [| | |s]; try discriminate.
    destruct (fix_of s) as [ll| |]; try discriminate. cbn [bind fst snd].
    cbn [List.length] in L.
    destruct (IH w G) as (acts & P & N); [lia|].
    exists (act ll ++ acts). rewrite P. cbn [option_map fst snd].
    split; [reflexivity|].
    rewrite length_app, (act_valid ll Ty), N. cbn [List.length].
    change (S (S (List.length w))) with (1 * 2 + List.length w).
    rewrite Nat.div_add_l by discriminate. reflexivity.
Qed.

End GoodStreams.

(** X14.  On a stream where every chunk holds a GGA sentence with a valid
    fix, the loops of decode-gps-data and send-gps-data act on every other
    chunk only: the drain at the head of each call throws one sentence away
    for each one that is parsed.  With n chunks, (n - 1) / 2 fixes are
    printed or sent, and the loop is left waiting for more. *)
Theorem every_other_fix_is_lost
  (parse : parser) (fuel : nat) (stale w : list bytes) :
  forallb (good_fix parse) w = true ->
  List.length w < fuel ->
  exists shown sent,
    main_decode parse fuel (mkSerial stale w) = Some (Waiting, shown) /\
    main_send parse fuel (mkSerial stale w) = Some (Waiting, sent) /\
    List.length shown = (List.length w - 1) / 2 /\
    List.length sent = (List.length w - 1) / 2.
Proof.
  intros G L. unfold main_decode, main_send, main_loop, flush_serial.
  cbn [reset_input_buffer wire].
  destruct w as [|x w].
  - exists [], []. repeat split; reflexivity.
  - cbn [forallb] in G. apply andb_prop in G. destruct G as [Gx G].
    unfold good_fix in Gx. apply andb_prop in Gx. destruct Gx as [Ux _].
    apply negb_true_iff in Ux. rewrite (drain_stops x w Ux).
    cbn [List.length] in L |- *.
    replace (S (List.length w) - 1) with (List.length w) by lia.
    destruct (poll_loop_good parse report) with (fuel := fuel) (w := w)
      as (shown & P1 & N1); [|exact G|lia|].
    { intros ll V. unfold report. rewrite V. reflexivity. }
    destruct (poll_loop_good parse forward) with (fuel := fuel) (w := w)
      as (sent & P2 & N2); [|exact G|lia|].
    { intros ll V. unfold forward. rewrite V. reflexivity. }
    exists shown, sent. auto.
Qed.

Lemma every_other_fix_is_lost_witness :
  exists shown sent,
    main_decode Reference.parse 6 five_gga = Some (Waiting, shown) /\
    main_send Reference.parse 6 five_gga = Some (Waiting, sent) /\
    List.length shown = (5 - 1) / 2 /\
    List.length sent = (5 - 1) / 2.
Proof.
  apply (every_other_fix_is_lost Reference.parse 6 []
           (repeat (line gga_text) 5)).
  - vm_compute. reflexivity.
  - vm_compute. lia.
Defined.

Section Blocking.

Variable parse : parser.
Variable limit : nat.

Lemma drain_none (w : list bytes) :
  drain w = None <-> forallb unusable w = true.
Proof.
  split; [|apply drain_starved].
  induction w as [|raw w IH]; cbn [drain forallb]; [reflexivity|].
  unfold unusable at 1.
  destruct (utf8_decode raw) as [text|]; [|exact IH].
  destruct (truthy (strip text)); [discriminate|exact IH].
Qed.

Lemma scan_blocked (w : list bytes) (r : nat) :
  fst (scan parse limit r w) = Blocked <->
  forallb (no_target parse) w = true /\ r + wrong_types parse w < limit.
Proof.
  split.
  - revert r. induction w as [|raw w IH]; intros r H.
    + destruct (Nat.lt_ge_cases r limit) as [L|L].
      * split; [reflexivity|]. unfold wrong_types. cbn. lia.
      * rewrite scan_spent in H by exact L. discriminate.
    + destruct (Nat.lt_ge_cases r limit) as [L|L].
      2:{ rewrite scan_spent in H by exact L. discriminate. }
      rewrite scan_kind in H by exact L.
      pose proof (kind_flags parse raw) as G. rewrite wrong_types_cons.
      cbn [forallb].
      destruct (classify parse raw) as [| | |s]; try discriminate.
      * destruct G as [G1 G2]. destruct (IH r H) as [P B].
        rewrite G1, G2, P. split; [reflexivity|exact B].
      * destruct G as [G1 G2]. destruct (IH (S r) H) as [P B].
        rewrite G1, G2, P. split; [reflexivity|lia].
      * exfalso. exact (fix_of_not_blocked s H).
  - intros [P B]. rewrite <- (app_nil_r w).
    rewrite (scan_prefix parse limit w [] r P).
    rewrite scan_nil by exact B. reflexivity.
Qed.

End Blocking.

(** X15.  [get_next_location] waits in a read for good in two cases and no
    other: the drain never finds a chunk that decodes to something other
    than white space, or, after the drain, the chunks run out with no GGA
    sentence among them and fewer than a hundred well-formed sentences of
    another type.  It never gives up for lack of data. *)
Theorem get_next_location_blocks_iff (parse : parser) (conn : serial) :
  get_next_location parse conn = Blocked <->
  forallb unusable (wire conn) = true \/
  exists c,
    flush_serial conn = Returned c /\
    forallb (no_target parse) (wire c) = true /\
    wrong_types parse (wire c) < retry_limit.
Proof.
  unfold get_next_location, get_next_location_traced. split.
  - destruct (flush_serial conn) as [c|x|] eqn:F; cbn [fst]; try discriminate.
    + intro H. right. exists c. split; [reflexivity|].
      exact (proj1 (scan_blocked parse retry_limit (wire c) 0) H).
    + intros _. left. unfold flush_serial in F.
      cbn [reset_input_buffer wire] in F.
      destruct (drain (wire conn)) eqn:D; [discriminate|].
      exact (proj1 (drain_none _) D).
  - intros [U|(c & F & P & B)].
    + unfold flush_serial. cbn [reset_input_buffer wire].
      rewrite (drain_starved _ U). reflexivity.
    + rewrite F. exact (proj2 (scan_blocked parse retry_limit (wire c) 0)
                          (conj P B)).
Qed.

Lemma get_next_location_blocks_iff_witness :
  get_next_location Reference.parse (port ([crlf] ++ interleaved)) = Blocked /\
  get_next_location Reference.parse (port [torn; crlf]) = Blocked.
Proof.
  split.
  - apply (proj2 (get_next_location_blocks_iff Reference.parse _)). right.
    exists (port [line rmc_text; crlf; line rmc_text; bytes_of rmc_elided]).
    repeat split; try (vm_compute; reflexivity).
    unfold retry_limit. vm_compute. lia.
  - apply (proj2 (get_next_location_blocks_iff Reference.parse _)). left.
    vm_compute. reflexivity.
Defined.
